(** * FlashVocab: the search controller of [App.tsx] and the request
    memoizer of [services/geminiService.ts]

    The component state of [App], the two module-level caches and the
    browser facilities the handlers use (timers, the clock, the external
    generative API) are embedded as one explicit state, and every handler
    as a function on it.  An [async] handler is cut at its [await]: the part
    before it is a [_start] function that may leave a [Task] in flight, the
    part after it is [resume].

    Covered: the search box with its debounce effect, [handleSearch],
    [handleQuickLookup], [clearSearch], [isItemSaved], [handleToggleSave],
    the initialisers of the saved collections, [lookupWord] and
    [lookupSentence]; further down the global shortcuts, the due counts,
    the collection callbacks of the flashcard page and the study session,
    the persistence effects, and from [components/WordCard.tsx] the
    clickable text, the practice panel and the sheet sync.  Rendering,
    audio and the shuffled study queue are not modelled. *)

From Stdlib Require Import ZArith Ascii String List Bool.
From stdpp Require Import base option list gmap strings.

Local Open Scope Z_scope.
Local Open Scope string_scope.
Local Open Scope list_scope.

(** ** Strings

    JavaScript strings are modelled as [string]; [trim] strips the
    white-space characters of the ASCII range (tab, LF, VT, FF, CR, space)
    and [toLowerCase] maps [A]-[Z]. *)

Module JsString.

Definition is_white_space (c : ascii) : bool := Ascii.is_space c.

Fixpoint trimStart (s : string) : string :=
  match s with
  | String c s' => if is_white_space c then trimStart s' else s
  | EmptyString => EmptyString
  end.

Fixpoint trimEnd (s : string) : string :=
  match s with
  | String c s' =>
      match trimEnd s' with
      | EmptyString => if is_white_space c then EmptyString else String c EmptyString
      | String c' r => String c (String c' r)
      end
  | EmptyString => EmptyString
  end.

Definition trim (s : string) : string := trimEnd (trimStart s).

Definition lower_char (c : ascii) : ascii :=
  let n := nat_of_ascii c in
  if ((65 <=? n)%nat && (n <=? 90)%nat)%bool then ascii_of_nat (n + 32) else c.

Fixpoint toLowerCase (s : string) : string :=
  match s with
  | String c s' => String (lower_char c) (toLowerCase s')
  | EmptyString => EmptyString
  end.

(** [s.length] *)
Definition str_length (s : string) : Z := Z.of_nat (String.length s).

(** Truthiness of a string: only the empty string is falsy. *)
Definition truthy (s : string) : bool :=
  match s with EmptyString => false | String _ _ => true end.

(** [===] on strings. *)
Definition str_eqb (a b : string) : bool := bool_decide (a = b).

(** The character class of [/[.,\/#!$%\^&\*;:{}=\-_`~()]/g]. *)
Definition is_punct (c : ascii) : bool :=
  match c with
  | "." | "," | "/" | "#" | "!" | "$" | "%" | "^" | "&" | "*" | ";" | ":"
  | "{" | "}" | "=" | "-" | "_" | "`" | "~" | "(" | ")" => true
  | _ => false
  end%char.

(** [s.replace(/[...]/g, "")] for that class. *)
Fixpoint strip_punct (s : string) : string :=
  match s with
  | String c s' => if is_punct c then strip_punct s' else String c (strip_punct s')
  | EmptyString => EmptyString
  end.

End JsString.

Import JsString.

(** ** Data model *)

(** Modelled from the spec: [types.ts] is not part of the sources.  A
    [WordData] is the provider's payload with its identity field [word]
    ([wordSchema]) and the two optional scheduling fields that [App] writes;
    the remaining provider fields are kept as one opaque payload. *)
Record WordData := mkWordData {
  word : string;
  word_payload : string;
  w_srs_level : option Z;
  w_next_review : option Z
}.

(** Modelled from the spec: [types.ts] is not part of the sources.  A
    [SentenceData] has the identity field [sentence] ([sentenceSchema]),
    an opaque payload and the same two scheduling fields. *)
Record SentenceData := mkSentenceData {
  sentence : string;
  sentence_payload : string;
  s_srs_level : option Z;
  s_next_review : option Z
}.

(** [WordData | SentenceData], discriminated by ['word' in item]. *)
Inductive Item :=
| IWord (w : WordData)
| ISentence (sn : SentenceData).

Inductive SearchMode := word_mode | sentence_mode.
Inductive View := search | flashcards | study.

Global Instance WordData_eq_dec : EqDecision WordData.
Proof. solve_decision. Defined.
Global Instance SentenceData_eq_dec : EqDecision SentenceData.
Proof. solve_decision. Defined.
Global Instance Item_eq_dec : EqDecision Item.
Proof. solve_decision. Defined.
Global Instance SearchMode_eq_dec : EqDecision SearchMode.
Proof. solve_decision. Defined.
Global Instance View_eq_dec : EqDecision View.
Proof. solve_decision. Defined.

(** The [useState] cells of [App]. *)
Record AppState := mkApp {
  query : string;
  searchMode : SearchMode;
  wordData : option WordData;
  sentenceData : option SentenceData;
  loading : bool;
  isSubLoading : bool;
  error : option string;
  lastLoadTime : option Z;
  currentView : View;
  sheetsUrl : string;
  selectedDetail : option Item;
  savedWords : list WordData;
  savedSentences : list SentenceData;
  studyQueue : list Item
}.

Definition setQuery (v : string) (a : AppState) : AppState :=
  mkApp v (searchMode a) (wordData a) (sentenceData a) (loading a)
    (isSubLoading a) (error a) (lastLoadTime a) (currentView a) (sheetsUrl a)
    (selectedDetail a) (savedWords a) (savedSentences a) (studyQueue a).
Definition setSearchMode (v : SearchMode) (a : AppState) : AppState :=
  mkApp (query a) v (wordData a) (sentenceData a) (loading a)
    (isSubLoading a) (error a) (lastLoadTime a) (currentView a) (sheetsUrl a)
    (selectedDetail a) (savedWords a) (savedSentences a) (studyQueue a).
Definition setWordData (v : option WordData) (a : AppState) : AppState :=
  mkApp (query a) (searchMode a) v (sentenceData a) (loading a)
    (isSubLoading a) (error a) (lastLoadTime a) (currentView a) (sheetsUrl a)
    (selectedDetail a) (savedWords a) (savedSentences a) (studyQueue a).
Definition setSentenceData (v : option SentenceData) (a : AppState) : AppState :=
  mkApp (query a) (searchMode a) (wordData a) v (loading a)
    (isSubLoading a) (error a) (lastLoadTime a) (currentView a) (sheetsUrl a)
    (selectedDetail a) (savedWords a) (savedSentences a) (studyQueue a).
Definition setLoading (v : bool) (a : AppState) : AppState :=
  mkApp (query a) (searchMode a) (wordData a) (sentenceData a) v
    (isSubLoading a) (error a) (lastLoadTime a) (currentView a) (sheetsUrl a)
    (selectedDetail a) (savedWords a) (savedSentences a) (studyQueue a).
Definition setIsSubLoading (v : bool) (a : AppState) : AppState :=
  mkApp (query a) (searchMode a) (wordData a) (sentenceData a) (loading a)
    v (error a) (lastLoadTime a) (currentView a) (sheetsUrl a)
    (selectedDetail a) (savedWords a) (savedSentences a) (studyQueue a).
Definition setError (v : option string) (a : AppState) : AppState :=
  mkApp (query a) (searchMode a) (wordData a) (sentenceData a) (loading a)
    (isSubLoading a) v (lastLoadTime a) (currentView a) (sheetsUrl a)
    (selectedDetail a) (savedWords a) (savedSentences a) (studyQueue a).
Definition setLastLoadTime (v : option Z) (a : AppState) : AppState :=
  mkApp (query a) (searchMode a) (wordData a) (sentenceData a) (loading a)
    (isSubLoading a) (error a) v (currentView a) (sheetsUrl a)
    (selectedDetail a) (savedWords a) (savedSentences a) (studyQueue a).
Definition setCurrentView (v : View) (a : AppState) : AppState :=
  mkApp (query a) (searchMode a) (wordData a) (sentenceData a) (loading a)
    (isSubLoading a) (error a) (lastLoadTime a) v (sheetsUrl a)
    (selectedDetail a) (savedWords a) (savedSentences a) (studyQueue a).
Definition setSelectedDetail (v : option Item) (a : AppState) : AppState :=
  mkApp (query a) (searchMode a) (wordData a) (sentenceData a) (loading a)
    (isSubLoading a) (error a) (lastLoadTime a) (currentView a) (sheetsUrl a)
    v (savedWords a) (savedSentences a) (studyQueue a).
Definition setSavedWords (v : list WordData) (a : AppState) : AppState :=
  mkApp (query a) (searchMode a) (wordData a) (sentenceData a) (loading a)
    (isSubLoading a) (error a) (lastLoadTime a) (currentView a) (sheetsUrl a)
    (selectedDetail a) v (savedSentences a) (studyQueue a).
Definition setSavedSentences (v : list SentenceData) (a : AppState) : AppState :=
  mkApp (query a) (searchMode a) (wordData a) (sentenceData a) (loading a)
    (isSubLoading a) (error a) (lastLoadTime a) (currentView a) (sheetsUrl a)
    (selectedDetail a) (savedWords a) v (studyQueue a).

(** ** The state outside [useState]: refs, caches, the browser *)

(** What a render's [handleSearch] closes over. *)
Record Closure := mkClosure {
  c_query : string;
  c_searchMode : SearchMode;
  c_wordData : option WordData;
  c_sentenceData : option SentenceData
}.

Definition closure_of (a : AppState) : Closure :=
  mkClosure (query a) (searchMode a) (wordData a) (sentenceData a).

(** A pending [setTimeout(() => handleSearch(), delay)]. *)
Record Timer := mkTimer {
  t_due : Z;
  t_callback : Closure
}.

(** An [async] handler suspended at its [await] of the external call. *)
Inductive Task :=
| SearchWordTask (cleanQuery : string) (startTime : Z) (normalized : string)
| SearchSentenceTask (cleanQuery : string) (startTime : Z) (normalized : string)
| QuickTask (normalized : string).

(** How [ai.models.generateContent] followed by [JSON.parse(response.text)]
    ends: the request is rejected, the text does not parse, or it parses. *)
Inductive Response (A : Type) :=
| Reject
| BadJson
| Json (a : A).
Arguments Reject {A}.
Arguments BadJson {A}.
Arguments Json {A} a.

Record Sys := mkSys {
  app : AppState;
  latestQueryRef : string;
  debounceTimerRef : option nat;
  (** whether the last run of the debounce effect returned its cleanup *)
  effectCleanup : bool;
  wordCache : gmap string WordData;
  sentenceCache : gmap string SentenceData;
  (** [Date.now()] and [performance.now()], in milliseconds *)
  clock : Z;
  timers : list (nat * Timer);
  nextTimerId : nat;
  inflight : list Task;
  (** the requests sent to the external API, oldest first *)
  apiCalls : list (SearchMode * string);
  (** number of [console.error] calls *)
  consoleErrors : nat
}.

Definition on_app (f : AppState -> AppState) (s : Sys) : Sys :=
  mkSys (f (app s)) (latestQueryRef s) (debounceTimerRef s) (effectCleanup s)
    (wordCache s) (sentenceCache s) (clock s) (timers s) (nextTimerId s)
    (inflight s) (apiCalls s) (consoleErrors s).
Definition set_latestQueryRef (v : string) (s : Sys) : Sys :=
  mkSys (app s) v (debounceTimerRef s) (effectCleanup s)
    (wordCache s) (sentenceCache s) (clock s) (timers s) (nextTimerId s)
    (inflight s) (apiCalls s) (consoleErrors s).
Definition set_debounceTimerRef (v : option nat) (s : Sys) : Sys :=
  mkSys (app s) (latestQueryRef s) v (effectCleanup s)
    (wordCache s) (sentenceCache s) (clock s) (timers s) (nextTimerId s)
    (inflight s) (apiCalls s) (consoleErrors s).
Definition set_effectCleanup (v : bool) (s : Sys) : Sys :=
  mkSys (app s) (latestQueryRef s) (debounceTimerRef s) v
    (wordCache s) (sentenceCache s) (clock s) (timers s) (nextTimerId s)
    (inflight s) (apiCalls s) (consoleErrors s).
Definition set_wordCache (v : gmap string WordData) (s : Sys) : Sys :=
  mkSys (app s) (latestQueryRef s) (debounceTimerRef s) (effectCleanup s)
    v (sentenceCache s) (clock s) (timers s) (nextTimerId s)
    (inflight s) (apiCalls s) (consoleErrors s).
Definition set_sentenceCache (v : gmap string SentenceData) (s : Sys) : Sys :=
  mkSys (app s) (latestQueryRef s) (debounceTimerRef s) (effectCleanup s)
    (wordCache s) v (clock s) (timers s) (nextTimerId s)
    (inflight s) (apiCalls s) (consoleErrors s).
Definition set_clock (v : Z) (s : Sys) : Sys :=
  mkSys (app s) (latestQueryRef s) (debounceTimerRef s) (effectCleanup s)
    (wordCache s) (sentenceCache s) v (timers s) (nextTimerId s)
    (inflight s) (apiCalls s) (consoleErrors s).
Definition set_timers (v : list (nat * Timer)) (s : Sys) : Sys :=
  mkSys (app s) (latestQueryRef s) (debounceTimerRef s) (effectCleanup s)
    (wordCache s) (sentenceCache s) (clock s) v (nextTimerId s)
    (inflight s) (apiCalls s) (consoleErrors s).
Definition set_nextTimerId (v : nat) (s : Sys) : Sys :=
  mkSys (app s) (latestQueryRef s) (debounceTimerRef s) (effectCleanup s)
    (wordCache s) (sentenceCache s) (clock s) (timers s) v
    (inflight s) (apiCalls s) (consoleErrors s).
Definition set_inflight (v : list Task) (s : Sys) : Sys :=
  mkSys (app s) (latestQueryRef s) (debounceTimerRef s) (effectCleanup s)
    (wordCache s) (sentenceCache s) (clock s) (timers s) (nextTimerId s)
    v (apiCalls s) (consoleErrors s).
Definition set_apiCalls (v : list (SearchMode * string)) (s : Sys) : Sys :=
  mkSys (app s) (latestQueryRef s) (debounceTimerRef s) (effectCleanup s)
    (wordCache s) (sentenceCache s) (clock s) (timers s) (nextTimerId s)
    (inflight s) v (consoleErrors s).
Definition set_consoleErrors (v : nat) (s : Sys) : Sys :=
  mkSys (app s) (latestQueryRef s) (debounceTimerRef s) (effectCleanup s)
    (wordCache s) (sentenceCache s) (clock s) (timers s) (nextTimerId s)
    (inflight s) (apiCalls s) v.

(** ** [services/geminiService.ts]: the request memoizer *)

(** [ai.models.generateContent(...)]: the request leaves the program. *)
Definition generateContent (m : SearchMode) (normalized : string) (s : Sys) : Sys :=
  set_apiCalls (apiCalls s ++ [(m, normalized)]) s.

(** [lookupWord] up to its [await]: the cached value on a hit ([inl]), or
    the key of the request just sent ([inr]). *)
Definition lookupWord_start (input : string) (s : Sys) : (WordData + string) * Sys :=
  let normalized := toLowerCase (trim input) in
  match wordCache s !! normalized with
  | Some v => (inl v, s)
  | None => (inr normalized, generateContent word_mode normalized s)
  end.

(** [lookupWord] after its [await]: [None] when it throws. *)
Definition lookupWord_finish (normalized : string) (o : Response WordData) (s : Sys)
  : option WordData * Sys :=
  match o with
  | Json result => (Some result, set_wordCache (<[normalized := result]> (wordCache s)) s)
  | Reject | BadJson => (None, s)
  end.

Definition lookupSentence_start (input : string) (s : Sys) : (SentenceData + string) * Sys :=
  let normalized := trim input in
  match sentenceCache s !! normalized with
  | Some v => (inl v, s)
  | None => (inr normalized, generateContent sentence_mode normalized s)
  end.

Definition lookupSentence_finish (normalized : string) (o : Response SentenceData) (s : Sys)
  : option SentenceData * Sys :=
  match o with
  | Json result =>
      (Some result, set_sentenceCache (<[normalized := result]> (sentenceCache s)) s)
  | Reject | BadJson => (None, s)
  end.

(** ** [App.tsx]: the primary lookup *)

(** "Lỗi tra cứu. Vui lòng kiểm tra lại kết nối.", without its diacritics. *)
Definition LOOKUP_ERROR : string := "Loi tra cuu. Vui long kiem tra lai ket noi.".

(** The guard under the comment "Tránh tìm lại cùng một từ": the query is
    the identity of the result this render shows, compared lower-cased. *)
Definition same_as_displayed (cl : Closure) (cleanQuery : string) : bool :=
  match c_searchMode cl with
  | word_mode =>
      match c_wordData cl with
      | Some w => str_eqb (toLowerCase (word w)) (toLowerCase cleanQuery)
      | None => false
      end
  | sentence_mode =>
      match c_sentenceData cl with
      | Some sn => str_eqb (toLowerCase (sentence sn)) (toLowerCase cleanQuery)
      | None => false
      end
  end.

(** [handleSearch] after [await lookupWord(cleanQuery)]: the [try] body's
    remainder on [Some result], the [catch] on [None], then the [finally]. *)
Definition search_word_done (cleanQuery : string) (startTime : Z)
    (r : option WordData) (s : Sys) : Sys :=
  let s1 :=
    match r with
    | Some result =>
        if str_eqb (latestQueryRef s) cleanQuery then
          on_app (fun a => setLastLoadTime (Some (clock s - startTime))
                             (setSentenceData None (setWordData (Some result) a))) s
        else s
    | None =>
        if str_eqb (latestQueryRef s) cleanQuery then
          on_app (setError (Some LOOKUP_ERROR)) s
        else s
    end in
  if str_eqb (latestQueryRef s1) cleanQuery then on_app (setLoading false) s1 else s1.

Definition search_sentence_done (cleanQuery : string) (startTime : Z)
    (r : option SentenceData) (s : Sys) : Sys :=
  let s1 :=
    match r with
    | Some result =>
        if str_eqb (latestQueryRef s) cleanQuery then
          on_app (fun a => setLastLoadTime (Some (clock s - startTime))
                             (setWordData None (setSentenceData (Some result) a))) s
        else s
    | None =>
        if str_eqb (latestQueryRef s) cleanQuery then
          on_app (setError (Some LOOKUP_ERROR)) s
        else s
    end in
  if str_eqb (latestQueryRef s1) cleanQuery then on_app (setLoading false) s1 else s1.

(** [handleSearch] up to its [await].  On a cache hit nothing is awaited
    from outside and the handler runs to its end. *)
Definition handleSearch_start (cl : Closure) (s : Sys) : Sys * option Task :=
  let cleanQuery := trim (c_query cl) in
  if negb (truthy cleanQuery) then (s, None)
  else
    let s := set_latestQueryRef cleanQuery s in
    if same_as_displayed cl cleanQuery then (s, None)
    else
      let startTime := clock s in
      let s := on_app (fun a => setError None (setLoading true a)) s in
      match c_searchMode cl with
      | word_mode =>
          match lookupWord_start cleanQuery s with
          | (inl result, s') =>
              (search_word_done cleanQuery startTime (Some result) s', None)
          | (inr normalized, s') =>
              (s', Some (SearchWordTask cleanQuery startTime normalized))
          end
      | sentence_mode =>
          match lookupSentence_start cleanQuery s with
          | (inl result, s') =>
              (search_sentence_done cleanQuery startTime (Some result) s', None)
          | (inr normalized, s') =>
              (s', Some (SearchSentenceTask cleanQuery startTime normalized))
          end
      end.

(** ** [App.tsx]: the quick lookup *)

Definition console_error (s : Sys) : Sys := set_consoleErrors (S (consoleErrors s)) s.

(** [handleQuickLookup] after [await lookupWord(cleanWord)]. *)
Definition quick_done (r : option WordData) (s : Sys) : Sys :=
  let s1 :=
    match r with
    | Some result => on_app (setSelectedDetail (Some (IWord result))) s
    | None => console_error s
    end in
  on_app (setIsSubLoading false) s1.

Definition handleQuickLookup_start (w : string) (s : Sys) : Sys * option Task :=
  let cleanWord := trim (strip_punct w) in
  if (negb (truthy cleanWord) || (str_length cleanWord <? 2)%Z)%bool then (s, None)
  else
    let s := on_app (setIsSubLoading true) s in
    match lookupWord_start cleanWord s with
    | (inl result, s') => (quick_done (Some result) s', None)
    | (inr normalized, s') => (s', Some (QuickTask normalized))
    end.

(** ** Resuming a suspended handler *)

(** The response as the awaiting lookup types it ([as WordData],
    [as SentenceData]); a payload of the other kind is not a response to
    this request. *)
Definition as_word (o : Response Item) : option (Response WordData) :=
  match o with
  | Reject => Some Reject
  | BadJson => Some BadJson
  | Json (IWord w) => Some (Json w)
  | Json (ISentence _) => None
  end.

Definition as_sentence (o : Response Item) : option (Response SentenceData) :=
  match o with
  | Reject => Some Reject
  | BadJson => Some BadJson
  | Json (ISentence sn) => Some (Json sn)
  | Json (IWord _) => None
  end.

Definition resume (t : Task) (o : Response Item) (s : Sys) : Sys :=
  match t with
  | SearchWordTask cleanQuery startTime normalized =>
      match as_word o with
      | Some o' =>
          let '(r, s') := lookupWord_finish normalized o' s in
          search_word_done cleanQuery startTime r s'
      | None => s
      end
  | SearchSentenceTask cleanQuery startTime normalized =>
      match as_sentence o with
      | Some o' =>
          let '(r, s') := lookupSentence_finish normalized o' s in
          search_sentence_done cleanQuery startTime r s'
      | None => s
      end
  | QuickTask normalized =>
      match as_word o with
      | Some o' =>
          let '(r, s') := lookupWord_finish normalized o' s in
          quick_done r s'
      | None => s
      end
  end.

(** ** [App.tsx]: saved collections *)

Definition isItemSaved (a : AppState) (item : option Item) : bool :=
  match item with
  | None => false
  | Some (IWord it) =>
      existsb (fun w => str_eqb (toLowerCase (word w)) (toLowerCase (word it)))
        (savedWords a)
  | Some (ISentence it) =>
      existsb (fun sn => str_eqb (sentence sn) (sentence it)) (savedSentences a)
  end.

(** [{ ...word, srs_level: 0, next_review: Date.now() }] *)
Definition fresh_word (now : Z) (w : WordData) : WordData :=
  mkWordData (word w) (word_payload w) (Some 0) (Some now).

Definition fresh_sentence (now : Z) (sn : SentenceData) : SentenceData :=
  mkSentenceData (sentence sn) (sentence_payload sn) (Some 0) (Some now).

(** [handleToggleSave]; [now] is the value of [Date.now()]. *)
Definition handleToggleSave (now : Z) (item : option Item) (a : AppState) : AppState :=
  match item with
  | None => a
  | Some (IWord w) =>
      if isItemSaved a (Some (IWord w)) then
        setSavedWords
          (List.filter
             (fun x => negb (str_eqb (toLowerCase (word x)) (toLowerCase (word w))))
             (savedWords a)) a
      else setSavedWords (fresh_word now w :: savedWords a) a
  | Some (ISentence sn) =>
      if isItemSaved a (Some (ISentence sn)) then
        setSavedSentences
          (List.filter (fun x => negb (str_eqb (sentence x) (sentence sn)))
             (savedSentences a)) a
      else setSavedSentences (fresh_sentence now sn :: savedSentences a) a
  end.

(** [clearSearch], up to the re-render it causes. *)
Definition clearSearch (a : AppState) : AppState :=
  setLastLoadTime None
    (setError None (setSentenceData None (setWordData None (setQuery "" a)))).

(** ** [App.tsx]: the debounce effect *)

Definition clearTimeout (id : nat) (s : Sys) : Sys :=
  set_timers (List.filter (fun p => negb (Nat.eqb (fst p) id)) (timers s)) s.

Definition setTimeout (cb : Closure) (delay : Z) (s : Sys) : nat * Sys :=
  let id := nextTimerId s in
  (id, set_nextTimerId (S id)
         (set_timers (timers s ++ [(id, mkTimer (clock s + delay) cb)]) s)).

Definition DEBOUNCE_MS : Z := 400.

(** The cleanup the effect returns. *)
Definition debounce_cleanup (s : Sys) : Sys :=
  match debounceTimerRef s with
  | Some id => clearTimeout id s
  | None => s
  end.

(** The body of the effect with dependencies
    [[query, searchMode, currentView]]. *)
Definition debounce_effect (s : Sys) : Sys :=
  let a := app s in
  if (negb (bool_decide (currentView a = search))
      || (str_length (trim (query a)) <? 2)%Z)%bool then
    let s1 :=
      if (str_length (trim (query a)) =? 0)%Z then
        on_app (fun a => setLastLoadTime None (setSentenceData None (setWordData None a))) s
      else s in
    set_effectCleanup false s1
  else
    let s1 := debounce_cleanup s in
    let '(id, s2) := setTimeout (closure_of (app s1)) DEBOUNCE_MS s1 in
    set_effectCleanup true (set_debounceTimerRef (Some id) s2).

Definition deps_changed (before after : AppState) : bool :=
  negb (bool_decide (query before = query after
                     /\ searchMode before = searchMode after
                     /\ currentView before = currentView after)).

(** The commit after a state change: when a dependency of the debounce
    effect changed, its previous cleanup (if it returned one) runs, then
    its body. *)
Definition rerender (before : AppState) (s : Sys) : Sys :=
  if deps_changed before (app s) then
    debounce_effect (if effectCleanup s then debounce_cleanup s else s)
  else s.

(** ** The event loop *)

Inductive Event :=
| Input (q : string)              (* onChange of the search box *)
| SetSearchMode (m : SearchMode)  (* mode buttons, Alt+1, Alt+2 *)
| SetCurrentView (v : View)       (* navigation, Alt+F, Alt+Q *)
| Submit                          (* onSubmit of the search form *)
| ClearSearch                     (* clear button, Alt+C *)
| Elapse (dt : Z)                 (* time passes *)
| Fire (id : nat)                 (* the browser runs a due timer *)
| Resolve (i : nat) (o : Response Item) (* an external call settles *)
| QuickLookup (w : string)        (* onLookup of a card or the modal *)
| ToggleSave (item : option Item).

Definition add_task (r : Sys * option Task) : Sys :=
  match r with
  | (s, Some t) => set_inflight (inflight s ++ [t]) s
  | (s, None) => s
  end.

Definition find_timer (id : nat) (s : Sys) : option Timer :=
  snd <$> List.find (fun p => Nat.eqb (fst p) id) (timers s).

Definition fits (t : Task) (o : Response Item) : bool :=
  match t with
  | SearchSentenceTask _ _ _ => bool_decide (is_Some (as_sentence o))
  | _ => bool_decide (is_Some (as_word o))
  end.

Definition step (e : Event) (s : Sys) : Sys :=
  match e with
  | Input q =>
      if bool_decide (currentView (app s) = search)
      then rerender (app s) (on_app (setQuery q) s) else s
  | SetSearchMode m => rerender (app s) (on_app (setSearchMode m) s)
  | SetCurrentView v => rerender (app s) (on_app (setCurrentView v) s)
  | Submit =>
      if bool_decide (currentView (app s) = search)
      then add_task (handleSearch_start (closure_of (app s)) s) else s
  | ClearSearch => rerender (app s) (on_app clearSearch s)
  | Elapse dt => set_clock (clock s + Z.max 0 dt) s
  | Fire id =>
      match find_timer id s with
      | Some t =>
          if (t_due t <=? clock s)%Z
          then add_task (handleSearch_start (t_callback t) (clearTimeout id s))
          else s
      | None => s
      end
  | Resolve i o =>
      match inflight s !! i with
      | Some t =>
          if fits t o then resume t o (set_inflight (delete i (inflight s)) s) else s
      | None => s
      end
  | QuickLookup w => add_task (handleQuickLookup_start w s)
  | ToggleSave item => on_app (handleToggleSave (clock s) item) s
  end.

Definition run (evs : list Event) (s : Sys) : Sys :=
  fold_left (fun st e => step e st) evs s.

(** The state after the first render and its effects, given the loaded
    collections and sync URL and the time [t0] of the mount. *)
Definition mount (words : list WordData) (sentences : list SentenceData)
    (url : string) (t0 : Z) : Sys :=
  debounce_effect
    (mkSys (mkApp "" word_mode None None false false None None search url None
              words sentences [])
       "" None false ∅ ∅ t0 [] 1 [] [] 0).

(** ** [App.tsx]: loading the saved collections *)

Module Startup.

(** How a JavaScript expression completes. *)
Inductive Completion (A : Type) :=
| Normal (a : A)
| Throw.
Arguments Normal {A} a.
Arguments Throw {A}.

(** [try { body } catch (e) { handler }] *)
Definition try_catch {A} (body handler : Completion A) : Completion A :=
  match body with
  | Normal a => Normal a
  | Throw => handler
  end.

(** A JSON value that is not an array. *)
Inductive NonArray :=
| JNull
| JBool (b : bool)
| JNumber (literal : string)
| JString (s : string)
| JObject.

(** What [JSON.parse] returns when it returns: an array, its elements typed
    as the [useState<A[]>] cast says, or a value of another kind.  Nothing
    checks which. *)
Inductive Parsed (A : Type) :=
| ParsedArray (l : list A)
| ParsedOther (v : NonArray).
Arguments ParsedArray {A} l.
Arguments ParsedOther {A} v.

Section Load.
Context {A : Type}.
(** [JSON.parse] *)
Variable JSON_parse : string -> Completion (Parsed A).

(** [() => { try { const saved = localStorage.getItem(key);
                   return saved ? JSON.parse(saved) : []; }
             catch (e) { return []; } }] *)
Definition load_collection (key : string) (localStorage : gmap string string)
  : Completion (Parsed A) :=
  try_catch
    (match localStorage !! key with
     | Some saved => if truthy saved then JSON_parse saved else Normal (ParsedArray [])
     | None => Normal (ParsedArray [])
     end)
    (Normal (ParsedArray [])).

Definition load_savedWords := load_collection "flashcards".
Definition load_savedSentences := load_collection "saved_sentences".
End Load.

End Startup.

(** * Vocabulary of the specification *)

(** Identity of saved items: words case-insensitively, sentences by their
    exact text. *)
Definition same_word (w x : WordData) : Prop :=
  toLowerCase (word x) = toLowerCase (word w).
Definition same_sentence (sn x : SentenceData) : Prop :=
  sentence x = sentence sn.

Global Instance same_word_dec w x : Decision (same_word w x).
Proof. unfold same_word. apply _. Defined.
Global Instance same_sentence_dec sn x : Decision (same_sentence sn x).
Proof. unfold same_sentence. apply _. Defined.

(** A lookup fails when the request is rejected or its text does not
    parse. *)
Definition failed {A} (o : Response A) : Prop :=
  match o with
  | Json _ => False
  | Reject | BadJson => True
  end.

(** The query that initiated a primary lookup. *)
Definition task_query (t : Task) : option string :=
  match t with
  | SearchWordTask cleanQuery _ _ | SearchSentenceTask cleanQuery _ _ => Some cleanQuery
  | QuickTask _ => None
  end.

(** The displayed-result cells after publishing [r]. *)
Definition shown (r : Item) : option WordData * option SentenceData :=
  match r with
  | IWord w => (Some w, None)
  | ISentence sn => (None, Some sn)
  end.

(** Overwriting everything the primary lookup owns: the staleness marker,
    its loading flag, the displayed result and the error. *)
Definition with_primary (marker : string) (l : bool) (wd : option WordData)
    (sd : option SentenceData) (e : option string) (s : Sys) : Sys :=
  set_latestQueryRef marker
    (on_app (fun a => setError e (setSentenceData sd (setWordData wd (setLoading l a)))) s).

(** [a'] differs from [a] at most in the quick lookup's own cells. *)
Definition quick_frame (a a' : AppState) : Prop :=
  a' = setSelectedDetail (selectedDetail a') (setIsSubLoading (isSubLoading a') a).

(** A string that does not begin with white space. *)
Definition starts_clean (s : string) : Prop :=
  match s with
  | String c _ => is_white_space c = false
  | EmptyString => True
  end.

(** The key under which a mode memoizes a query. *)
Definition normalized_query (m : SearchMode) (q : string) : string :=
  match m with
  | word_mode => toLowerCase (trim q)
  | sentence_mode => trim q
  end.

(** The clock value at the last event of a run that changed a dependency of
    the debounce effect ([tc] when there is none). *)
Fixpoint last_change (evs : list Event) (s : Sys) (tc : Z) : Z :=
  match evs with
  | [] => tc
  | e :: evs' =>
      last_change evs' (step e s)
        (if deps_changed (app s) (app (step e s)) then clock s else tc)
  end.





(** At most one timer is pending; it is the one [debounceTimerRef] names,
    it was scheduled for the current query and mode at time [tc], in the
    search view and with a trimmed query of at least two characters. *)
Definition debounce_inv (s : Sys) (tc : Z) : Prop :=
  timers s = []
  \/ exists id t,
      timers s = [(id, t)]
      /\ debounceTimerRef s = Some id
      /\ effectCleanup s = true
      /\ c_query (t_callback t) = query (app s)
      /\ c_searchMode (t_callback t) = searchMode (app s)
      /\ currentView (app s) = search
      /\ (2 <= str_length (trim (query (app s))))%Z
      /\ t_due t = (tc + DEBOUNCE_MS)%Z.

(** [s'] has the scheduling state of [s]: timers, the timer ref, the
    cleanup, the clock and the effect's dependencies. *)
Definition same_sched (s s' : Sys) : Prop :=
  timers s' = timers s
  /\ debounceTimerRef s' = debounceTimerRef s
  /\ effectCleanup s' = effectCleanup s
  /\ nextTimerId s' = nextTimerId s
  /\ clock s' = clock s
  /\ query (app s') = query (app s)
  /\ searchMode (app s') = searchMode (app s)
  /\ currentView (app s') = currentView (app s).


(** The part of [debounce_inv] that the effect's cleanup relies on. *)
Definition timer_owned (s : Sys) : Prop :=
  timers s = []
  \/ exists id t, timers s = [(id, t)] /\ debounceTimerRef s = Some id
                  /\ effectCleanup s = true.

(** [s'] has the requests, clock, caches, marker and effect dependencies of
    [s]. *)
Definition same_service (s s' : Sys) : Prop :=
  apiCalls s' = apiCalls s
  /\ clock s' = clock s
  /\ wordCache s' = wordCache s
  /\ sentenceCache s' = sentenceCache s
  /\ latestQueryRef s' = latestQueryRef s
  /\ query (app s') = query (app s)
  /\ searchMode (app s') = searchMode (app s)
  /\ currentView (app s') = currentView (app s).

(** * The rest of [App.tsx] *)

(** ** Collections: the flashcard page and the study session *)

(** [onRemoveWord]: [setSavedWords(prev => prev.filter(w => w.word !== s))] *)
Definition onRemoveWord (s : string) (a : AppState) : AppState :=
  setSavedWords (List.filter (fun w => negb (str_eqb (word w) s)) (savedWords a)) a.

(** [onRemoveSentence] *)
Definition onRemoveSentence (s : string) (a : AppState) : AppState :=
  setSavedSentences
    (List.filter (fun item => negb (str_eqb (sentence item) s)) (savedSentences a)) a.

(** [onUpdateWord] of the study session: the entries with the text of [w]
    are replaced by [w]. *)
Definition onUpdateWord (w : Item) (a : AppState) : AppState :=
  match w with
  | IWord w =>
      setSavedWords
        (List.map (fun old => if str_eqb (word old) (word w) then w else old)
           (savedWords a)) a
  | ISentence sn =>
      setSavedSentences
        (List.map (fun old => if str_eqb (sentence old) (sentence sn) then sn else old)
           (savedSentences a)) a
  end.

(** [!x.next_review || x.next_review <= now]: an absent or zero review time
    is falsy. *)
Definition is_due (now : Z) (next_review : option Z) : bool :=
  match next_review with
  | None => true
  | Some t => ((t =? 0) || (t <=? now))%Z
  end.

(** [value.filter(f)] on what an initialiser returned: only an array has
    the method, on any other value the call throws. *)
Definition loaded_filter {A} (f : A -> bool) (v : Startup.Parsed A)
  : Startup.Completion (list A) :=
  match v with
  | Startup.ParsedArray l => Startup.Normal (List.filter f l)
  | Startup.ParsedOther _ => Startup.Throw
  end.

(** [savedWords.filter(w => !w.next_review || w.next_review <= now).length]
    as the first render evaluates it on the loaded value. *)
Definition first_dueWordsCount (now : Z) (v : Startup.Parsed WordData)
  : Startup.Completion nat :=
  match loaded_filter (fun w => is_due now (w_next_review w)) v with
  | Startup.Normal l => Startup.Normal (length l)
  | Startup.Throw => Startup.Throw
  end.

Definition first_dueSentencesCount (now : Z) (v : Startup.Parsed SentenceData)
  : Startup.Completion nat :=
  match loaded_filter (fun s => is_due now (s_next_review s)) v with
  | Startup.Normal l => Startup.Normal (length l)
  | Startup.Throw => Startup.Throw
  end.

Definition dueWordsCount (now : Z) (a : AppState) : nat :=
  length (List.filter (fun w => is_due now (w_next_review w)) (savedWords a)).

Definition dueSentencesCount (now : Z) (a : AppState) : nat :=
  length (List.filter (fun s => is_due now (s_next_review s)) (savedSentences a)).

(** The red dot on the library button. *)
Definition due_badge (now : Z) (a : AppState) : bool :=
  (0 <? dueWordsCount now a + dueSentencesCount now a)%nat.

(** Identities are unique within each collection. *)
Definition unique_words (l : list WordData) : Prop :=
  NoDup (List.map (fun w => toLowerCase (word w)) l).
Definition unique_sentences (l : list SentenceData) : Prop :=
  NoDup (List.map sentence l).
Definition collections_unique (a : AppState) : Prop :=
  unique_words (savedWords a) /\ unique_sentences (savedSentences a).

(** ** Invariants of the event loop *)

(** The error banner and the loading skeleton are never up together, and at
    most one of the two displayed results is set. *)
Definition display_inv (a : AppState) : Prop :=
  (error a <> None -> loading a = false)
  /\ (wordData a = None \/ sentenceData a = None).

(** The time at which a suspended primary lookup started. *)
Definition task_start (t : Task) : option Z :=
  match t with
  | SearchWordTask _ startTime _ | SearchSentenceTask _ startTime _ => Some startTime
  | QuickTask _ => None
  end.

(** No suspended lookup started in the future, and the displayed load time
    is not negative. *)
Definition timing_inv (s : Sys) : Prop :=
  Forall (fun t => forall st, task_start t = Some st -> (st <= clock s)%Z) (inflight s)
  /\ (forall d, lastLoadTime (app s) = Some d -> (0 <= d)%Z).

(** Between [s] and [s'] at most one request was sent, and not for an
    empty key. *)
Definition sent_at_most_one (s s' : Sys) : Prop :=
  apiCalls s' = apiCalls s
  \/ exists m key, key <> "" /\ apiCalls s' = apiCalls s ++ [(m, key)].

(** Every key memoized in [s] is memoized in [s']. *)
Definition caches_kept (s s' : Sys) : Prop :=
  (forall k, is_Some (wordCache s !! k) -> is_Some (wordCache s' !! k))
  /\ (forall k, is_Some (sentenceCache s !! k) -> is_Some (sentenceCache s' !! k)).

(** ** [App.tsx]: global shortcuts *)

Record KeyEvent := mkKeyEvent {
  altKey : bool;
  key : string
}.

(** [handleGlobalKeyDown]: five independent tests, their state updates
    committed together.  The second component tells whether
    [preventDefault] was called. *)
Definition handleGlobalKeyDown (e : KeyEvent) (s : Sys) : Sys * bool :=
  let before := app s in
  let '(s1, p1) :=
    if (altKey e && str_eqb (key e) "1")%bool
    then (on_app (setSearchMode word_mode) s, true) else (s, false) in
  let '(s2, p2) :=
    if (altKey e && str_eqb (key e) "2")%bool
    then (on_app (setSearchMode sentence_mode) s1, true) else (s1, p1) in
  let '(s3, p3) :=
    if (altKey e && str_eqb (toLowerCase (key e)) "f")%bool
    then (on_app (setCurrentView flashcards) s2, true) else (s2, p2) in
  let '(s4, p4) :=
    if (altKey e && str_eqb (toLowerCase (key e)) "q")%bool
    then (on_app (setCurrentView search) s3, true) else (s3, p3) in
  let '(s5, p5) :=
    if (altKey e && str_eqb (toLowerCase (key e)) "c")%bool
    then (on_app clearSearch s4, true) else (s4, p4) in
  (rerender before s5, p5).

(** * [components/WordCard.tsx] *)

(** ** [ClickableText] *)

(** [/\s+/.test(part)]: the part contains white space. *)
Fixpoint contains_ws (s : string) : bool :=
  match s with
  | String c s' => (is_white_space c || contains_ws s')%bool
  | EmptyString => false
  end.

(** [text.split(/(\s+)/)]: the maximal runs without white space and, between
    them, the maximal runs of white space; the first and the last part are
    runs without white space, possibly empty. *)
Fixpoint split_ws (s : string) : list string :=
  match s with
  | EmptyString => [EmptyString]
  | String c s' =>
      match split_ws s' with
      | w0 :: rest =>
          if is_white_space c then
            match w0, rest with
            | EmptyString, sep :: rest' => EmptyString :: String c sep :: rest'
            | _, _ => EmptyString :: String c EmptyString :: w0 :: rest
            end
          else String c w0 :: rest
      | [] => []
      end
  end.

(** What a part is rendered as: itself, or itself made clickable with the
    word handed to [onLookup]. *)
Inductive Rendered :=
| Plain (text : string)
| Clickable (text : string) (cleanWord : string).

Definition render_part (part : string) : Rendered :=
  if contains_ws part then Plain part
  else
    let cleanWord := strip_punct part in
    if (negb (truthy cleanWord) || (str_length cleanWord <? 2)%Z)%bool then Plain part
    else Clickable part cleanWord.

(** [ClickableText]; [hasLookup] tells whether [onLookup] was given. *)
Definition ClickableText (hasLookup : bool) (text : string) : list Rendered :=
  if hasLookup then List.map render_part (split_ws text) else [Plain text].

Definition rendered_text (r : Rendered) : string :=
  match r with
  | Plain text | Clickable text _ => text
  end.

(** Concatenation of strings. *)
Fixpoint str_append (a b : string) : string :=
  match a with
  | String c a' => String c (str_append a' b)
  | EmptyString => b
  end.

(** The text a list of rendered parts shows. *)
Definition shown_text (rs : list Rendered) : string :=
  fold_right (fun r acc => str_append (rendered_text r) acc) EmptyString rs.

(** ** The practice panel and the sheet sync *)

(** Modelled from the spec: [types.ts] is not part of the sources.  A
    [SentenceEvaluation] has the fields of [evaluationSchema]. *)
Record SentenceEvaluation := mkEvaluation {
  score : Z;
  corrected_sentence : string;
  explanation_vi : string;
  is_natural : bool
}.

(** The state of one word card, with its props [data.word] and [sheetsUrl],
    the requests it has sent and the calls it is waiting for. *)
Record Card := mkCard {
  card_word : string;
  card_sheetsUrl : string;
  showPractice : bool;
  practiceInput : string;
  isEvaluating : bool;
  evaluation : option SentenceEvaluation;
  isSyncing : bool;
  (** [evaluateSentence(targetWord, userSentence)] calls, oldest first *)
  evalCalls : list (string * string);
  evalPending : nat;
  (** [fetch(sheetsUrl, ...)] calls *)
  syncCalls : list string;
  syncPending : nat;
  alerts : list string
}.

Definition EVAL_ALERT : string := "Loi khi danh gia cau. Vui long thu lai.".
Definition SYNC_OK_ALERT : string := "Da dong bo len Google Sheets thanh cong!".
Definition SYNC_FAIL_ALERT : string := "Loi ket noi Google Sheets.".

(** [handleEvaluate] up to its [await]. *)
Definition handleEvaluate_start (c : Card) : Card :=
  if (negb (truthy (trim (practiceInput c))) || isEvaluating c)%bool then c
  else
    mkCard (card_word c) (card_sheetsUrl c) (showPractice c) (practiceInput c)
      true None (isSyncing c)
      (evalCalls c ++ [(card_word c, practiceInput c)]) (S (evalPending c))
      (syncCalls c) (syncPending c) (alerts c).

(** [handleEvaluate] after its [await]. *)
Definition handleEvaluate_done (o : Response SentenceEvaluation) (c : Card) : Card :=
  mkCard (card_word c) (card_sheetsUrl c) (showPractice c) (practiceInput c)
    false
    (match o with Json result => Some result | _ => evaluation c end)
    (isSyncing c) (evalCalls c) (evalPending c) (syncCalls c) (syncPending c)
    (match o with Json _ => alerts c | _ => alerts c ++ [EVAL_ALERT] end).

(** [handlePracticeKeyDown]: Enter without Shift evaluates. *)
Definition handlePracticeKeyDown (k : string) (shiftKey : bool) (c : Card) : Card :=
  if (str_eqb k "Enter" && negb shiftKey)%bool then handleEvaluate_start c else c.

(** [syncToSheets] up to its [await]. *)
Definition syncToSheets_start (c : Card) : Card :=
  if (negb (truthy (card_sheetsUrl c)) || isSyncing c)%bool then c
  else
    mkCard (card_word c) (card_sheetsUrl c) (showPractice c) (practiceInput c)
      (isEvaluating c) (evaluation c) true (evalCalls c) (evalPending c)
      (syncCalls c ++ [card_sheetsUrl c]) (S (syncPending c)) (alerts c).

(** [syncToSheets] after its [await]; [ok] tells whether [fetch] resolved. *)
Definition syncToSheets_done (ok : bool) (c : Card) : Card :=
  mkCard (card_word c) (card_sheetsUrl c) (showPractice c) (practiceInput c)
    (isEvaluating c) (evaluation c) false (evalCalls c) (evalPending c)
    (syncCalls c) (syncPending c)
    (alerts c ++ [if ok then SYNC_OK_ALERT else SYNC_FAIL_ALERT]).

Inductive CardEvent :=
| PracticeInput (text : string)   (* onChange of the textarea *)
| TogglePractice                  (* the pen button, Alt+P *)
| EvaluateClick
| PracticeKey (k : string) (shiftKey : bool)
| EvaluateSettles (o : Response SentenceEvaluation)
| SyncClick
| SyncSettles (ok : bool).

Definition card_step (e : CardEvent) (c : Card) : Card :=
  match e with
  | PracticeInput text =>
      mkCard (card_word c) (card_sheetsUrl c) (showPractice c) text
        (isEvaluating c) (evaluation c) (isSyncing c) (evalCalls c) (evalPending c)
        (syncCalls c) (syncPending c) (alerts c)
  | TogglePractice =>
      mkCard (card_word c) (card_sheetsUrl c) (negb (showPractice c)) (practiceInput c)
        (isEvaluating c) (evaluation c) (isSyncing c) (evalCalls c) (evalPending c)
        (syncCalls c) (syncPending c) (alerts c)
  | EvaluateClick => handleEvaluate_start c
  | PracticeKey k shiftKey => handlePracticeKeyDown k shiftKey c
  | EvaluateSettles o =>
      match evalPending c with
      | S n =>
          handleEvaluate_done o
            (mkCard (card_word c) (card_sheetsUrl c) (showPractice c) (practiceInput c)
               (isEvaluating c) (evaluation c) (isSyncing c) (evalCalls c) n
               (syncCalls c) (syncPending c) (alerts c))
      | O => c
      end
  | SyncClick => syncToSheets_start c
  | SyncSettles ok =>
      match syncPending c with
      | S n =>
          syncToSheets_done ok
            (mkCard (card_word c) (card_sheetsUrl c) (showPractice c) (practiceInput c)
               (isEvaluating c) (evaluation c) (isSyncing c) (evalCalls c)
               (evalPending c) (syncCalls c) n (alerts c))
      | O => c
      end
  end.

Definition card_run (evs : list CardEvent) (c : Card) : Card :=
  fold_left (fun st e => card_step e st) evs c.

(** A card as it is mounted. *)
Definition card_mount (w url : string) : Card :=
  mkCard w url false "" false None false [] 0 [] 0 [].

(** While a card evaluates or syncs exactly one call of that kind is
    pending, otherwise none; every evaluation it requested was for its own
    word and a sentence that is not blank; it syncs only to its URL, and
    never when that is empty. *)
Definition card_inv (c : Card) : Prop :=
  evalPending c = (if isEvaluating c then 1 else 0)%nat
  /\ syncPending c = (if isSyncing c then 1 else 0)%nat
  /\ Forall (fun r => fst r = card_word c /\ trim (snd r) <> "") (evalCalls c)
  /\ Forall (fun u => u = card_sheetsUrl c /\ u <> "") (syncCalls c).

(** * [App.tsx]: persistence *)

Section Persist.
Context {A : Type}.
(** [JSON.stringify] on a collection. *)
Variable JSON_stringify : list A -> string.

(** [useEffect(() => localStorage.setItem('flashcards',
    JSON.stringify(savedWords)), [savedWords])] *)
Definition persist_savedWords (l : list A) (localStorage : gmap string string)
  : gmap string string :=
  <["flashcards" := JSON_stringify l]> localStorage.

Definition persist_savedSentences (l : list A) (localStorage : gmap string string)
  : gmap string string :=
  <["saved_sentences" := JSON_stringify l]> localStorage.
End Persist.

(** [useEffect(() => localStorage.setItem('google_sheets_url', sheetsUrl),
    [sheetsUrl])] *)
Definition persist_sheetsUrl (url : string) (localStorage : gmap string string)
  : gmap string string :=
  <["google_sheets_url" := url]> localStorage.

(** [localStorage.getItem('google_sheets_url') || ''] *)
Definition load_sheetsUrl (localStorage : gmap string string) : string :=
  match localStorage !! "google_sheets_url" with
  | Some v => if truthy v then v else ""
  | None => ""
  end.

(** ** Dispatches and stale completions *)

(** The events that call [handleSearch]. *)
Definition is_dispatch (e : Event) : bool :=
  match e with
  | Submit | Fire _ => true
  | _ => false
  end.

Definition no_dispatch (evs : list Event) : Prop :=
  Forall (fun e => is_dispatch e = false) evs.

(** The one thing a lookup does to the state before its handler looks at the
    marker: on success it stores the result under its key. *)
Definition memoize (t : Task) (o : Response Item) (s : Sys) : Sys :=
  match t, o with
  | SearchWordTask _ _ normalized, Json (IWord w)
  | QuickTask normalized, Json (IWord w) =>
      set_wordCache (<[normalized := w]> (wordCache s)) s
  | SearchSentenceTask _ _ normalized, Json (ISentence sn) =>
      set_sentenceCache (<[normalized := sn]> (sentenceCache s)) s
  | _, _ => s
  end.

(** The two displayed-result cells. *)
Definition displayed (s : Sys) : option WordData * option SentenceData :=
  (wordData (app s), sentenceData (app s)).

(** * Properties *)

Example trim_ex : trim "  cat " = "cat".
Proof. reflexivity. Qed.

Example lower_ex : toLowerCase "Run" = "run".
Proof. reflexivity. Qed.

Example strip_ex : strip_punct "don't, (stop)!" = "don't stop".
Proof. reflexivity. Qed.

(** ** Strings *)

Lemma str_eqb_true a b : str_eqb a b = true <-> a = b.
Proof. unfold str_eqb. apply bool_decide_eq_true. Qed.

Lemma str_eqb_false a b : str_eqb a b = false <-> a <> b.
Proof. unfold str_eqb. apply bool_decide_eq_false. Qed.

Lemma str_eqb_refl a : str_eqb a a = true.
Proof. by apply str_eqb_true. Qed.

Lemma lower_char_idem c : lower_char (lower_char c) = lower_char c.
Proof. by destruct c as [[] [] [] [] [] [] [] []]. Qed.

Lemma toLowerCase_idem s : toLowerCase (toLowerCase s) = toLowerCase s.
Proof.
  induction s as [|c s IH]; simpl; [done|].
  by rewrite lower_char_idem, IH.
Qed.

Lemma trimStart_clean s : starts_clean (trimStart s).
Proof.
  induction s as [|c s IH]; simpl; [done|].
  by destruct (is_white_space c) eqn:E.
Qed.

Lemma starts_clean_trimStart s : starts_clean s -> trimStart s = s.
Proof. destruct s as [|c s]; simpl; [done|]. by intros ->. Qed.

Lemma trimEnd_clean s : starts_clean s -> starts_clean (trimEnd s).
Proof.
  destruct s as [|c s]; simpl; [done|]. intros Hc.
  destruct (trimEnd s); simpl; [|done]. by rewrite Hc.
Qed.

Lemma trimEnd_idem s : trimEnd (trimEnd s) = trimEnd s.
Proof.
  induction s as [|c s IH]; simpl; [done|].
  destruct (trimEnd s) as [|c' r] eqn:E.
  - destruct (is_white_space c) eqn:Hc; simpl; [done|]. by rewrite Hc.
  - change (trimEnd (String c (String c' r)))
      with (match trimEnd (String c' r) with
            | EmptyString => if is_white_space c then EmptyString else String c EmptyString
            | String c'' r' => String c (String c'' r')
            end).
    by rewrite IH.
Qed.

(** [trim] is idempotent: the query a handler trims is the query the
    memoizer trims again. *)
Lemma trim_idem s : trim (trim s) = trim s.
Proof.
  unfold trim.
  rewrite (starts_clean_trimStart (trimEnd (trimStart s)))
    by apply trimEnd_clean, trimStart_clean.
  apply trimEnd_idem.
Qed.

Lemma truthy_false s : truthy s = false <-> s = "".
Proof. destruct s; simpl; split; congruence. Qed.


(** ** Saved collections *)

Section ToggleSave.

Lemma isItemSaved_word a w :
  isItemSaved a (Some (IWord w)) = true <-> Exists (same_word w) (savedWords a).
Proof.
  simpl. rewrite existsb_exists, Exists_exists. unfold same_word.
  split; intros (x & Hx & E); exists x; split;
    try (by apply list_elem_of_In); by apply str_eqb_true.
Qed.

Lemma isItemSaved_sentence a sn :
  isItemSaved a (Some (ISentence sn)) = true
  <-> Exists (same_sentence sn) (savedSentences a).
Proof.
  simpl. rewrite existsb_exists, Exists_exists. unfold same_sentence.
  split; intros (x & Hx & E); exists x; split;
    try (by apply list_elem_of_In); by apply str_eqb_true.
Qed.

Lemma filter_negb_spec {A} (P : A -> Prop) `{!forall x, Decision (P x)}
    (f : A -> bool) (l : list A) :
  (forall x, f x = true <-> P x) ->
  List.filter (fun x => negb (f x)) l = filter (fun x => ~ P x) l.
Proof.
  intros Hf. induction l as [|x l IH]; [done|].
  simpl. rewrite filter_cons. destruct (f x) eqn:E; simpl.
  - rewrite decide_False; [done|]. intros HP. by apply HP, Hf.
  - rewrite decide_True; [by f_equal|]. intros HP%Hf. congruence.
Qed.

Lemma filter_not_Exists {A} (P : A -> Prop) `{!forall x, Decision (P x)} (l : list A) :
  ~ Exists P (filter (fun x => ~ P x) l).
Proof.
  rewrite Exists_exists. intros (x & Hx & HP).
  apply list_elem_of_filter in Hx as [Hn _]. by apply Hn.
Qed.

End ToggleSave.

(** C3.  [handleToggleSave] on an item: when the item's identity is already
    in its collection (words compared case-insensitively, sentences by exact
    text) every entry with that identity is removed and nothing is added;
    otherwise a copy of the item with [srs_level = 0] and
    [next_review = now] is put in front of the collection.  The entries with
    another identity keep their place and nothing else of the state
    changes. *)
Theorem handleToggleSave_postcondition (now : Z) (item : Item) (a : AppState) :
  let a' := handleToggleSave now (Some item) a in
  match item with
  | IWord w =>
      a' = setSavedWords (savedWords a') a
      /\ (Exists (same_word w) (savedWords a) ->
          savedWords a' = filter (fun x => ~ same_word w x) (savedWords a)
          /\ ~ Exists (same_word w) (savedWords a'))
      /\ (~ Exists (same_word w) (savedWords a) ->
          savedWords a'
          = mkWordData (word w) (word_payload w) (Some 0) (Some now) :: savedWords a)
  | ISentence sn =>
      a' = setSavedSentences (savedSentences a') a
      /\ (Exists (same_sentence sn) (savedSentences a) ->
          savedSentences a' = filter (fun x => ~ same_sentence sn x) (savedSentences a)
          /\ ~ Exists (same_sentence sn) (savedSentences a'))
      /\ (~ Exists (same_sentence sn) (savedSentences a) ->
          savedSentences a'
          = mkSentenceData (sentence sn) (sentence_payload sn) (Some 0) (Some now)
              :: savedSentences a)
  end.
Proof.
  destruct item as [w|sn]; cbv zeta.
  - pose proof (isItemSaved_word a w) as Hs.
    unfold handleToggleSave.
    destruct (isItemSaved a (Some (IWord w))) eqn:E.
    + split; [done|]. split.
      * intros _. simpl.
        rewrite (filter_negb_spec (same_word w)
                   (fun x => str_eqb (toLowerCase (word x)) (toLowerCase (word w)))).
        -- split; [done|]. apply filter_not_Exists.
        -- intros x. apply str_eqb_true.
      * intros Hn. exfalso. apply Hn, Hs. done.
    + split; [done|]. split.
      * intros Hex. apply Hs in Hex. congruence.
      * done.
  - pose proof (isItemSaved_sentence a sn) as Hs.
    unfold handleToggleSave.
    destruct (isItemSaved a (Some (ISentence sn))) eqn:E.
    + split; [done|]. split.
      * intros _. simpl.
        rewrite (filter_negb_spec (same_sentence sn)
                   (fun x => str_eqb (sentence x) (sentence sn))).
        -- split; [done|]. apply filter_not_Exists.
        -- intros x. apply str_eqb_true.
      * intros Hn. exfalso. apply Hn, Hs. done.
    + split; [done|]. split.
      * intros Hex. apply Hs in Hex. congruence.
      * done.
Qed.

(** The word stored as "Run", toggled with "run", is removed; the other
    entry stays. *)
Lemma handleToggleSave_postcondition_witness :
  let stored := mkWordData "Run" "to move fast" (Some 2) (Some 50) in
  let other := mkWordData "walk" "to move slowly" (Some 0) (Some 10) in
  let a := mkApp "" word_mode None None false false None None search ""
             None [stored; other] [] [] in
  savedWords (handleToggleSave 99 (Some (IWord (mkWordData "run" "" None None))) a)
  = [other].
Proof.
  intros stored other a.
  destruct (handleToggleSave_postcondition 99
              (IWord (mkWordData "run" "" None None)) a) as (_ & Hin & _).
  refine (eq_trans (proj1 (Hin _)) _).
  - apply Exists_cons_hd. reflexivity.
  - reflexivity.
Defined.

(** ** The memoizer *)

(** C7.  A lookup whose external call fails (rejected request or unparsable
    response) returns by throwing and leaves both caches as they were before
    the lookup; the next lookup of the same normalized query sends the
    request again.  Both modes. *)
Theorem failed_lookup_not_memoized (s : Sys) (input input' : string) :
  (forall normalized s1 (o : Response WordData),
      lookupWord_start input s = (inr normalized, s1) ->
      failed o ->
      toLowerCase (trim input') = toLowerCase (trim input) ->
      let s2 := snd (lookupWord_finish normalized o s1) in
      fst (lookupWord_finish normalized o s1) = None
      /\ wordCache s2 = wordCache s
      /\ sentenceCache s2 = sentenceCache s
      /\ lookupWord_start input' s2
         = (inr normalized, generateContent word_mode normalized s2))
  /\ (forall normalized s1 (o : Response SentenceData),
      lookupSentence_start input s = (inr normalized, s1) ->
      failed o ->
      trim input' = trim input ->
      let s2 := snd (lookupSentence_finish normalized o s1) in
      fst (lookupSentence_finish normalized o s1) = None
      /\ wordCache s2 = wordCache s
      /\ sentenceCache s2 = sentenceCache s
      /\ lookupSentence_start input' s2
         = (inr normalized, generateContent sentence_mode normalized s2)).
Proof.
  split; intros normalized s1 o Hstart Hfail Hnorm.
  - unfold lookupWord_start in Hstart.
    destruct (wordCache s !! toLowerCase (trim input)) eqn:Hmiss; [done|].
    injection Hstart as <- <-.
    assert (lookupWord_finish (toLowerCase (trim input)) o
              (generateContent word_mode (toLowerCase (trim input)) s)
            = (None, generateContent word_mode (toLowerCase (trim input)) s)) as ->
      by (by destruct o).
    cbn [fst snd]. repeat split.
    unfold lookupWord_start. rewrite Hnorm. cbn [wordCache generateContent set_apiCalls].
    by rewrite Hmiss.
  - unfold lookupSentence_start in Hstart.
    destruct (sentenceCache s !! trim input) eqn:Hmiss; [done|].
    injection Hstart as <- <-.
    assert (lookupSentence_finish (trim input) o
              (generateContent sentence_mode (trim input) s)
            = (None, generateContent sentence_mode (trim input) s)) as ->
      by (by destruct o).
    cbn [fst snd]. repeat split.
    unfold lookupSentence_start. rewrite Hnorm.
    cbn [sentenceCache generateContent set_apiCalls].
    by rewrite Hmiss.
Qed.

(** In an empty session the request for "cat" is rejected; looking up
    " Cat" afterwards sends the request for "cat" a second time. *)
Lemma failed_lookup_not_memoized_witness :
  let s := mount [] [] "" 0 in
  let s2 := snd (lookupWord_finish "cat" Reject (snd (lookupWord_start "cat" s))) in
  wordCache s2 = wordCache s
  /\ apiCalls (snd (lookupWord_start " Cat" s2)) = [(word_mode, "cat"); (word_mode, "cat")].
Proof.
  intros s s2.
  destruct (failed_lookup_not_memoized s "cat" " Cat") as [Hw _].
  destruct (Hw "cat" (snd (lookupWord_start "cat" s)) Reject eq_refl I eq_refl)
    as (_ & Hcache & _ & Hagain).
  split; [exact Hcache|].
  exact (eq_trans (f_equal (fun p => apiCalls (snd p)) Hagain) eq_refl).
Defined.

(** ** The staleness guard *)

Lemma as_word_failed o : failed o -> as_word o = Some Reject \/ as_word o = Some BadJson.
Proof. destruct o; simpl; intros; try done; auto. Qed.

Lemma as_sentence_failed o :
  failed o -> as_sentence o = Some Reject \/ as_sentence o = Some BadJson.
Proof. destruct o; simpl; intros; try done; auto. Qed.

(** A handler whose query is no longer the marker's value does nothing. *)
Lemma search_word_done_stale q st r s :
  latestQueryRef s <> q -> search_word_done q st r s = s.
Proof.
  intros Hne%str_eqb_false. unfold search_word_done.
  destruct r; by rewrite !Hne.
Qed.

Lemma search_sentence_done_stale q st r s :
  latestQueryRef s <> q -> search_sentence_done q st r s = s.
Proof.
  intros Hne%str_eqb_false. unfold search_sentence_done.
  destruct r; by rewrite !Hne.
Qed.

(** Apart from the two caches, a stale completion leaves the whole state
    alone. *)
Lemma resume_stale t q o s :
  task_query t = Some q ->
  latestQueryRef s <> q ->
  resume t o s = set_sentenceCache (sentenceCache (resume t o s))
                   (set_wordCache (wordCache (resume t o s)) s).
Proof.
  intros Hq Hne. destruct s as [a m r c wc sc k ts n fl calls ce].
  destruct t as [q' st key|q' st key|key]; simplify_eq/=.
  - destruct (as_word o) as [[| |w]|]; simpl; try done;
      by rewrite search_word_done_stale.
  - destruct (as_sentence o) as [[| |w]|]; simpl; try done;
      by rewrite search_sentence_done_stale.
Qed.

(** C10.  When the external call of a primary lookup fails while its query
    is still the latest dispatched one, the handler sets the error, clears
    the loading flag and leaves [wordData] and [sentenceData] as they
    were. *)
Theorem failed_lookup_keeps_result (t : Task) (q : string) (o : Response Item) (s : Sys) :
  task_query t = Some q ->
  failed o ->
  latestQueryRef s = q ->
  let s' := resume t o s in
  error (app s') = Some LOOKUP_ERROR
  /\ loading (app s') = false
  /\ wordData (app s') = wordData (app s)
  /\ sentenceData (app s') = sentenceData (app s).
Proof.
  intros Hq Hfail Hcur. destruct s as [a m r c wc sc k ts n fl calls ce].
  simpl in Hcur. subst m.
  destruct t as [q' st key|q' st key|key]; simplify_eq/=.
  - destruct (as_word_failed o Hfail) as [-> | ->]; simpl;
      unfold search_word_done; simpl; by rewrite !str_eqb_refl.
  - destruct (as_sentence_failed o Hfail) as [-> | ->]; simpl;
      unfold search_sentence_done; simpl; by rewrite !str_eqb_refl.
Qed.

(** "cat" is displayed, the lookup of "dog" is rejected: the error is set
    and "cat" stays on display. *)
Lemma failed_lookup_keeps_result_witness :
  let cat := mkWordData "cat" "feline" None None in
  let s := run [Input "cat"; Submit; Resolve 0 (Json (IWord cat)); Input "dog"; Submit]
             (mount [] [] "" 0) in
  let s' := resume (SearchWordTask "dog" 0 "dog") Reject s in
  error (app s') = Some LOOKUP_ERROR
  /\ loading (app s') = false
  /\ wordData (app s') = Some cat
  /\ sentenceData (app s') = None.
Proof.
  intros cat s s'.
  exact (failed_lookup_keeps_result (SearchWordTask "dog" 0 "dog") "dog" Reject s
           eq_refl I eq_refl).
Defined.

Lemma handleSearch_start_pending cl s s' t :
  handleSearch_start cl s = (s', Some t) ->
  task_query t = Some (trim (c_query cl))
  /\ latestQueryRef s' = trim (c_query cl)
  /\ loading (app s') = true
  /\ error (app s') = None.
Proof.
  unfold handleSearch_start, lookupWord_start, lookupSentence_start.
  intros H. repeat case_match; simplify_eq/=; done.
Qed.

Lemma resume_current_success t q r s :
  task_query t = Some q ->
  latestQueryRef s = q ->
  fits t (Json r) = true ->
  let s' := resume t (Json r) s in
  (wordData (app s'), sentenceData (app s')) = shown r
  /\ loading (app s') = false
  /\ error (app s') = error (app s)
  /\ latestQueryRef s' = q.
Proof.
  intros Hq Hcur Hfit. destruct s as [a m rf c wc sc k ts n fl calls ce].
  simpl in Hcur. subst m.
  destruct t as [q' st key|q' st key|key], r as [w|sn]; simplify_eq/=;
    try (by apply bool_decide_eq_true in Hfit as [? [=]]).
  - unfold search_word_done; simpl; by rewrite !str_eqb_refl.
  - unfold search_sentence_done; simpl; by rewrite !str_eqb_refl.
Qed.

Lemma resume_stale_app t q o s :
  task_query t = Some q ->
  latestQueryRef s <> q ->
  app (resume t o s) = app s /\ latestQueryRef (resume t o s) = latestQueryRef s.
Proof.
  intros Hq Hne. by rewrite (resume_stale t q o s Hq Hne).
Qed.

Lemma resume_marker t o s : latestQueryRef (resume t o s) = latestQueryRef s.
Proof.
  destruct t, o as [| |[w|sn]]; simpl; try done;
    unfold search_word_done, search_sentence_done, quick_done;
    destruct s; simpl; repeat case_match; simplify_eq/=; done.
Qed.

Lemma rerender_marker before s : latestQueryRef (rerender before s) = latestQueryRef s.
Proof.
  unfold rerender, debounce_effect, debounce_cleanup, clearTimeout, setTimeout.
  destruct s. simpl. repeat case_match; simplify_eq/=; done.
Qed.

(** Only a dispatch writes the marker. *)
Lemma step_marker e s :
  is_dispatch e = false -> latestQueryRef (step e s) = latestQueryRef s.
Proof.
  destruct e as [q|m|v| | |dt|id|i o|w|item]; intros He; try discriminate He;
    cbn [step].
  - case_bool_decide; [|done]. rewrite rerender_marker. by destruct s.
  - rewrite rerender_marker. by destruct s.
  - rewrite rerender_marker. by destruct s.
  - rewrite rerender_marker. by destruct s.
  - by destruct s.
  - destruct (inflight s !! i) as [t|]; [|done]. destruct (fits t o); [|done].
    rewrite resume_marker. by destruct s.
  - unfold handleQuickLookup_start, lookupWord_start, quick_done.
    destruct s. simpl. repeat case_match; simplify_eq/=; done.
  - by destruct s.
Qed.

Lemma run_marker evs : forall s,
  no_dispatch evs -> latestQueryRef (run evs s) = latestQueryRef s.
Proof.
  induction evs as [|e evs IH]; intros s Hnd; [done|].
  apply Forall_cons in Hnd as [He Hnd]. cbn [run fold_left].
  change (latestQueryRef (run evs (step e s)) = latestQueryRef s).
  rewrite IH by done. by apply step_marker.
Qed.

(** The completion of a lookup whose query is not the marker's value does
    one thing only: what [memoize] does. *)
Lemma resume_stale_memoize t q o s :
  task_query t = Some q ->
  latestQueryRef s <> q ->
  resume t o s = memoize t o s.
Proof.
  intros Hq Hne. destruct s as [a m r c wc sc k ts n fl calls ce].
  destruct t as [q' st key|q' st key|key], o as [| |[w|sn]]; simplify_eq/=;
    first [done | by rewrite search_word_done_stale
           | by rewrite search_sentence_done_stale].
Qed.

Lemma memoize_app t o s :
  app (memoize t o s) = app s /\ latestQueryRef (memoize t o s) = latestQueryRef s.
Proof. destruct t, o as [| |[w|sn]], s; done. Qed.

(** "cat" is dispatched, then "dog", then "cat" again, all three waiting
    for the external call.  "dog" is answered first and discarded, because
    the marker reads "cat"; the answer to the first "cat" arrives next and
    is published, because the marker reads "cat": after both have settled
    the first lookup's result is on display, not the second's.  And the
    completion of a lookup whose query is not the marker's value does change
    the state: it fills the word cache. *)
Lemma stale_result_published_by_text :
  let cat1 := mkWordData "cat" "first answer" None None in
  let cat2 := mkWordData "cat" "second answer" None None in
  let dog := mkWordData "dog" "canine" None None in
  (let s := run [Input "cat"; Submit; Input "dog"; Submit; Input "cat"; Submit]
              (mount [] [] "" 0) in
   inflight s = [SearchWordTask "cat" 0 "cat"; SearchWordTask "dog" 0 "dog";
                 SearchWordTask "cat" 0 "cat"]
   /\ let s' := run [Resolve 1 (Json (IWord dog)); Resolve 0 (Json (IWord cat1))] s in
      displayed s' = (Some cat1, None)
      /\ displayed (run [Resolve 0 (Json (IWord cat2))] s') = (Some cat2, None))
  /\ (let s := run [Input "cat"; Submit; Input "dog"; Submit] (mount [] [] "" 0) in
      let s' := resume (SearchWordTask "cat" 0 "cat") (Json (IWord cat1)) s in
      latestQueryRef s = "dog"
      /\ wordCache s !! "cat" = None
      /\ wordCache s' !! "cat" = Some cat1
      /\ s' <> s).
Proof.
  intros cat1 cat2 dog. repeat split; try reflexivity.
  intros H. apply (f_equal (fun s => wordCache s !! "cat")) in H.
  vm_compute in H. discriminate.
Qed.

(** C1, amended.  [Q1] is dispatched, later [Q2] with a different trimmed
    text, both waiting for the external call, and no lookup is dispatched
    from then until both calls have settled; anything else may happen in
    between.  Then [Q2]'s successful completion publishes its result and
    clears the loading flag, and [Q1]'s completion, on success or failure,
    before or after [Q2]'s, changes nothing but the memo entry its lookup
    stores; with nothing between the two completions the display after both
    is [Q2]'s result.  In general the completion of a lookup whose query
    text is not the marker's value at that moment does what [memoize] does
    and nothing else. *)
Theorem stale_result_suppressed (s0 s1 s2 : Sys) (cl1 cl2 : Closure) (t1 t2 : Task)
    (r2 : Item) (o1 : Response Item) (evs1 evs2 evs3 : list Event) :
  handleSearch_start cl1 s0 = (s1, Some t1) ->
  handleSearch_start cl2 (run evs1 s1) = (s2, Some t2) ->
  trim (c_query cl1) <> trim (c_query cl2) ->
  fits t2 (Json r2) = true ->
  no_dispatch evs2 ->
  no_dispatch evs3 ->
  (let s3 := resume t2 (Json r2) (run evs2 s2) in
   let s4 := resume t1 o1 (run evs3 s3) in
   displayed s3 = shown r2
   /\ loading (app s3) = false
   /\ s4 = memoize t1 o1 (run evs3 s3)
   /\ app s4 = app (run evs3 s3)
   /\ displayed (resume t1 o1 s3) = shown r2
   /\ loading (app (resume t1 o1 s3)) = false)
  /\ (let s3 := resume t1 o1 (run evs2 s2) in
      let s4 := resume t2 (Json r2) (run evs3 s3) in
      s3 = memoize t1 o1 (run evs2 s2)
      /\ app s3 = app (run evs2 s2)
      /\ displayed s4 = shown r2
      /\ loading (app s4) = false)
  /\ (forall t q o s,
        task_query t = Some q ->
        latestQueryRef s <> q ->
        resume t o s = memoize t o s).
Proof.
  intros H1 H2 Hne Hfit Hnd2 Hnd3.
  apply handleSearch_start_pending in H1 as (Hq1 & _ & _ & _).
  apply handleSearch_start_pending in H2 as (Hq2 & Hm2 & _ & _).
  assert (latestQueryRef (run evs2 s2) = trim (c_query cl2)) as Hm2'
    by (by rewrite run_marker).
  split; [|split]; [| |apply resume_stale_memoize]; cbv zeta.
  - destruct (resume_current_success t2 _ r2 (run evs2 s2) Hq2 Hm2' Hfit)
      as (Hshown & Hl & _ & Hm).
    set (s3 := resume t2 (Json r2) (run evs2 s2)) in *.
    assert (latestQueryRef (run evs3 s3) <> trim (c_query cl1)) as Hst
      by (rewrite run_marker by done; congruence).
    assert (latestQueryRef s3 <> trim (c_query cl1)) as Hst0 by congruence.
    rewrite (resume_stale_memoize t1 _ o1 (run evs3 s3) Hq1 Hst).
    rewrite (resume_stale_memoize t1 _ o1 s3 Hq1 Hst0).
    unfold displayed in *.
    destruct (memoize_app t1 o1 (run evs3 s3)) as [-> _].
    destruct (memoize_app t1 o1 s3) as [-> _].
    by repeat split.
  - assert (latestQueryRef (run evs2 s2) <> trim (c_query cl1)) as Hst by congruence.
    rewrite (resume_stale_memoize t1 _ o1 (run evs2 s2) Hq1 Hst).
    destruct (memoize_app t1 o1 (run evs2 s2)) as [Ha Hm].
    set (s3 := memoize t1 o1 (run evs2 s2)) in *.
    assert (latestQueryRef (run evs3 s3) = trim (c_query cl2)) as Hm3
      by (rewrite run_marker by done; congruence).
    destruct (resume_current_success t2 _ r2 (run evs3 s3) Hq2 Hm3 Hfit)
      as (Hshown & Hl & _ & _).
    by repeat split.
Qed.

(** "cat" is submitted, the user goes on typing, submits "dog", looks a
    word up on the side and lets time pass; "dog" is answered, the box is
    edited, then "cat" is answered: the answer changes nothing but the word
    cache, and with no edit in between "dog" is what is displayed. *)
Lemma stale_result_suppressed_witness :
  let cat := mkWordData "cat" "feline" None None in
  let dog := mkWordData "dog" "canine" None None in
  let s0 := run [Input "cat"] (mount [] [] "" 0) in
  let s1 := fst (handleSearch_start (mkClosure "cat" word_mode None None) s0) in
  let evs1 := [Input "do"; Input "dog"] in
  let s2 := fst (handleSearch_start (mkClosure "dog" word_mode None None) (run evs1 s1)) in
  let evs2 := [Elapse 50; QuickLookup "bird"] in
  let evs3 := [Input "dog "] in
  let s3 := resume (SearchWordTask "dog" 0 "dog") (Json (IWord dog)) (run evs2 s2) in
  app (resume (SearchWordTask "cat" 0 "cat") (Json (IWord cat)) (run evs3 s3))
  = app (run evs3 s3)
  /\ displayed (resume (SearchWordTask "cat" 0 "cat") (Json (IWord cat)) s3)
     = (Some dog, None).
Proof.
  intros cat dog s0 s1 evs1 s2 evs2 evs3 s3.
  assert (handleSearch_start (mkClosure "cat" word_mode None None) s0
          = (s1, Some (SearchWordTask "cat" 0 "cat"))) as H1
    by (vm_compute; reflexivity).
  assert (handleSearch_start (mkClosure "dog" word_mode None None) (run evs1 s1)
          = (s2, Some (SearchWordTask "dog" 0 "dog"))) as H2
    by (vm_compute; reflexivity).
  assert (trim "cat" <> trim "dog") as Hne by (vm_compute; discriminate).
  assert (no_dispatch evs2) as Hnd2 by (repeat constructor).
  assert (no_dispatch evs3) as Hnd3 by (repeat constructor).
  pose proof (stale_result_suppressed s0 s1 s2 _ _ _ _
                (IWord dog) (Json (IWord cat)) evs1 evs2 evs3
                H1 H2 Hne eq_refl Hnd2 Hnd3) as H.
  destruct H as ((_ & _ & _ & Happ & Hshown & _) & _).
  split; [exact Happ|exact Hshown].
Defined.

(** ** The quick lookup *)

(** C9.  [handleQuickLookup], before and after its [await], writes no cell
    of the component state other than [isSubLoading] and [selectedDetail]
    and leaves the staleness marker alone; it commutes with any overwriting
    of the marker, the primary loading flag, the displayed result and the
    error, so it reads none of them.  When the call fails the failure is
    logged and the only change of the component state is
    [isSubLoading = false]. *)
Theorem quick_lookup_independent (w key : string) (o : Response Item) (s : Sys) :
  let s1 := fst (handleQuickLookup_start w s) in
  let s2 := resume (QuickTask key) o s in
  quick_frame (app s) (app s1) /\ latestQueryRef s1 = latestQueryRef s
  /\ quick_frame (app s) (app s2) /\ latestQueryRef s2 = latestQueryRef s
  /\ (forall marker l wd sd e,
         handleQuickLookup_start w (with_primary marker l wd sd e s)
         = (with_primary marker l wd sd e s1, snd (handleQuickLookup_start w s)))
  /\ (forall marker l wd sd e,
         resume (QuickTask key) o (with_primary marker l wd sd e s)
         = with_primary marker l wd sd e s2)
  /\ (forall f : Response Item, failed f ->
         resume (QuickTask key) f s
         = console_error (on_app (setIsSubLoading false) s)).
Proof.
  destruct s as [a m rf c wc sc k ts n fl calls ce].
  destruct a as [q sm wd0 sd0 l0 sl e0 lt cv url det sw ss sq].
  cbv zeta. repeat split.
  - unfold handleQuickLookup_start, lookupWord_start, quick_frame; simpl.
    repeat case_match; simplify_eq/=; done.
  - unfold handleQuickLookup_start, lookupWord_start; simpl.
    repeat case_match; simplify_eq/=; done.
  - unfold quick_frame; simpl. destruct (as_word o) as [[| |x]|]; done.
  - simpl. destruct (as_word o) as [[| |x]|]; done.
  - intros. unfold handleQuickLookup_start, lookupWord_start; simpl.
    repeat case_match; simplify_eq/=; done.
  - intros. simpl. destruct (as_word o) as [[| |x]|]; done.
  - intros f Hf. simpl. destruct (as_word_failed f Hf) as [-> | ->]; done.
Qed.

(** The rejected quick lookup of "dog" while "cat" is displayed. *)
Lemma quick_lookup_independent_witness :
  let cat := mkWordData "cat" "feline" None None in
  let s := run [Input "cat"; Submit; Resolve 0 (Json (IWord cat)); QuickLookup "(dog)"]
             (mount [] [] "" 0) in
  let s' := resume (QuickTask "dog") Reject s in
  app s' = setIsSubLoading false (app s) /\ consoleErrors s' = 1%nat.
Proof.
  intros cat s s'.
  pose proof (proj2 (proj2 (proj2 (proj2 (proj2 (proj2
    (quick_lookup_independent "(dog)" "dog" Reject s)))))) Reject I) as H.
  split.
  - exact (f_equal app H).
  - exact (f_equal consoleErrors H).
Defined.

(** ** Memoization *)

(** Two lookups of the same word in one session send the request twice:
    when the second starts before the first has settled, and when the first
    fails. *)
Lemma lookup_twice_two_calls :
  let s := mount [] [] "" 0 in
  let first := snd (lookupWord_start "cat" s) in
  apiCalls (snd (lookupWord_start "cat" first))
  = [(word_mode, "cat"); (word_mode, "cat")]
  /\ apiCalls (snd (lookupWord_start "cat" (snd (lookupWord_finish "cat" Reject first))))
     = [(word_mode, "cat"); (word_mode, "cat")].
Proof. split; reflexivity. Qed.

(** C2, amended.  For both modes: once a lookup has returned a value, from
    the cache or from an external call that succeeded, a lookup of the same
    normalized query made next returns that value and sends nothing, so the
    two together send at most one request.  The word lookup neither reads
    nor writes the sentence cache, and conversely. *)
Theorem lookup_memoized_after_success (s : Sys) (input input' : string) :
  (toLowerCase (trim input') = toLowerCase (trim input) ->
     (forall v s1, lookupWord_start input s = (inl v, s1) ->
        s1 = s /\ lookupWord_start input' s1 = (inl v, s1))
     /\ (forall key s1 result, lookupWord_start input s = (inr key, s1) ->
        let s2 := snd (lookupWord_finish key (Json result) s1) in
        fst (lookupWord_finish key (Json result) s1) = Some result
        /\ lookupWord_start input' s2 = (inl result, s2)
        /\ apiCalls s2 = apiCalls s ++ [(word_mode, key)]))
  /\ (trim input' = trim input ->
     (forall v s1, lookupSentence_start input s = (inl v, s1) ->
        s1 = s /\ lookupSentence_start input' s1 = (inl v, s1))
     /\ (forall key s1 result, lookupSentence_start input s = (inr key, s1) ->
        let s2 := snd (lookupSentence_finish key (Json result) s1) in
        fst (lookupSentence_finish key (Json result) s1) = Some result
        /\ lookupSentence_start input' s2 = (inl result, s2)
        /\ apiCalls s2 = apiCalls s ++ [(sentence_mode, key)]))
  /\ (forall c key o,
        lookupWord_start input (set_sentenceCache c s)
        = (fst (lookupWord_start input s), set_sentenceCache c (snd (lookupWord_start input s)))
        /\ lookupWord_finish key o (set_sentenceCache c s)
           = (fst (lookupWord_finish key o s),
              set_sentenceCache c (snd (lookupWord_finish key o s))))
  /\ (forall c key o,
        lookupSentence_start input (set_wordCache c s)
        = (fst (lookupSentence_start input s),
           set_wordCache c (snd (lookupSentence_start input s)))
        /\ lookupSentence_finish key o (set_wordCache c s)
           = (fst (lookupSentence_finish key o s),
              set_wordCache c (snd (lookupSentence_finish key o s)))).
Proof.
  split; [|split; [|split]].
  - intros Hn. unfold lookupWord_start. rewrite Hn. split.
    + intros v s1 H. destruct (wordCache s !! _) eqn:E; simplify_eq. by rewrite E.
    + intros key s1 result H. destruct (wordCache s !! _) eqn:E; simplify_eq.
      simpl. by rewrite lookup_insert_eq.
  - intros Hn. unfold lookupSentence_start. rewrite Hn. split.
    + intros v s1 H. destruct (sentenceCache s !! _) eqn:E; simplify_eq. by rewrite E.
    + intros key s1 result H. destruct (sentenceCache s !! _) eqn:E; simplify_eq.
      simpl. by rewrite lookup_insert_eq.
  - intros c key o. unfold lookupWord_start. simpl. split.
    + by destruct (wordCache s !! _).
    + by destruct o.
  - intros c key o. unfold lookupSentence_start. simpl. split.
    + by destruct (sentenceCache s !! _).
    + by destruct o.
Qed.

(** "cat" is looked up and answered; " Cat " is then served from the
    cache. *)
Lemma lookup_memoized_after_success_witness :
  let cat := mkWordData "cat" "feline" None None in
  let s := mount [] [] "" 0 in
  let s2 := snd (lookupWord_finish "cat" (Json cat) (snd (lookupWord_start "cat" s))) in
  lookupWord_start " Cat " s2 = (inl cat, s2)
  /\ apiCalls s2 = [(word_mode, "cat")].
Proof.
  intros cat s s2.
  destruct (proj1 (lookup_memoized_after_success s "cat" " Cat ") eq_refl) as [_ H].
  destruct (H "cat" (snd (lookupWord_start "cat" s)) cat eq_refl) as (_ & Hhit & Hcalls).
  split; [exact Hhit|exact Hcalls].
Defined.

(** ** Startup *)

(** The initialiser itself always completes normally: with what
    [JSON.parse] returned when it returned, with the empty array when the
    key is absent or [JSON.parse] throws.  ([JSON.parse] throws on the empty
    text.) *)
Lemma load_collection_resilient {A}
    (JSON_parse : string -> Startup.Completion (Startup.Parsed A))
    (key : string) (localStorage : gmap string string) :
  JSON_parse "" = Startup.Throw ->
  Startup.load_collection JSON_parse key localStorage
  = Startup.Normal
      match localStorage !! key with
      | Some saved =>
          match JSON_parse saved with
          | Startup.Normal v => v
          | Startup.Throw => Startup.ParsedArray []
          end
      | None => Startup.ParsedArray []
      end.
Proof.
  intros Hempty. unfold Startup.load_collection.
  destruct (localStorage !! key) as [saved|]; [|done].
  destruct (truthy saved) eqn:Ht.
  - by destruct (JSON_parse saved).
  - apply truthy_false in Ht as ->. by rewrite Hempty.
Qed.

(** A truncated text under [flashcards] loads as the empty collection. *)
Lemma load_collection_resilient_witness :
  let parse := fun s : string =>
                 if str_eqb s "[]"
                 then Startup.Normal (Startup.ParsedArray ([] : list WordData))
                 else Startup.Throw in
  Startup.load_savedWords parse {[ "flashcards" := "[{bad" ]}
  = Startup.Normal (Startup.ParsedArray []).
Proof.
  intros parse.
  exact (eq_trans (load_collection_resilient parse "flashcards" _ eq_refl) eq_refl).
Defined.

(** C8, at the failing inputs.  When the text stored under [flashcards] or
    [saved_sentences] parses, but to a value that is not an array, the
    initialiser returns that value as it is, and the first render, which
    calls [filter] on it to count the due items, throws. *)
Theorem load_non_array_faults
    (parse_words : string -> Startup.Completion (Startup.Parsed WordData))
    (parse_sentences : string -> Startup.Completion (Startup.Parsed SentenceData))
    (saved : string) (v : Startup.NonArray) (now : Z)
    (localStorage : gmap string string) :
  saved <> "" ->
  (localStorage !! "flashcards" = Some saved ->
   parse_words saved = Startup.Normal (Startup.ParsedOther v) ->
   Startup.load_savedWords parse_words localStorage
   = Startup.Normal (Startup.ParsedOther v)
   /\ first_dueWordsCount now (Startup.ParsedOther v) = Startup.Throw)
  /\ (localStorage !! "saved_sentences" = Some saved ->
      parse_sentences saved = Startup.Normal (Startup.ParsedOther v) ->
      Startup.load_savedSentences parse_sentences localStorage
      = Startup.Normal (Startup.ParsedOther v)
      /\ first_dueSentencesCount now (Startup.ParsedOther v) = Startup.Throw).
Proof.
  intros Hne.
  assert (truthy saved = true) as Ht.
  { apply not_false_iff_true. by intros ?%truthy_false. }
  unfold Startup.load_savedWords, Startup.load_savedSentences, Startup.load_collection.
  split; intros -> Hp; rewrite Ht, Hp; done.
Qed.

(** The text [null] under [flashcards]: the words "collection" is [null]
    and the first render throws. *)
Lemma load_non_array_faults_witness :
  let parse := fun s : string =>
                 if str_eqb s "null"
                 then Startup.Normal (Startup.ParsedOther Startup.JNull)
                 else Startup.Throw in
  exists loaded : Startup.Parsed WordData,
    Startup.load_savedWords parse {[ "flashcards" := "null" ]} = Startup.Normal loaded
    /\ first_dueWordsCount 0 loaded = Startup.Throw.
Proof.
  intros parse. exists (Startup.ParsedOther Startup.JNull).
  assert ("null" <> "") as Hne by discriminate.
  exact (proj1 (load_non_array_faults parse
                  (fun _ => Startup.Throw) "null" Startup.JNull 0
                  {[ "flashcards" := "null" ]} Hne) eq_refl eq_refl).
Defined.

(** ** Submitting the displayed query *)

(** C6, at a failing input.  "cat" is displayed and the lookup of "dog" is
    in flight when "cat" is submitted again: nothing is sent, but the marker
    moves from "dog" to "cat", so the submit is no no-op; the answer to
    "dog" is then discarded and the loading flag stays set, with nothing
    left in flight to clear it. *)
Lemma same_query_submit_moves_marker :
  let cat := mkWordData "cat" "feline" None None in
  let dog := mkWordData "dog" "canine" None None in
  let s := run [Input "cat"; Submit; Resolve 0 (Json (IWord cat));
                Input "dog"; Submit; Input "cat"] (mount [] [] "" 0) in
  (searchMode (app s) = word_mode
   /\ wordData (app s) = Some cat
   /\ toLowerCase (trim (query (app s))) = word cat)
  /\ apiCalls (step Submit s) = apiCalls s
  /\ latestQueryRef s = "dog"
  /\ latestQueryRef (step Submit s) = "cat"
  /\ step Submit s <> s
  /\ loading (app (run [Submit; Resolve 0 (Json (IWord dog))] s)) = true
  /\ inflight (run [Submit; Resolve 0 (Json (IWord dog))] s) = []
  /\ wordData (app (run [Submit; Resolve 0 (Json (IWord dog))] s)) = Some cat.
Proof.
  intros cat dog s. repeat split; try (vm_compute; reflexivity).
  intros H. apply (f_equal latestQueryRef) in H. vm_compute in H. discriminate.
Qed.

(** What such a submit does to the state: it sends nothing and changes
    nothing except the latest-dispatched marker, which becomes the trimmed
    query (when that is not empty). *)
Lemma same_query_submit_noop (s : Sys) :
  currentView (app s) = search ->
  match searchMode (app s) with
  | word_mode =>
      exists w, wordData (app s) = Some w
                /\ toLowerCase (trim (query (app s))) = word w
  | sentence_mode =>
      exists sn, sentenceData (app s) = Some sn
                 /\ trim (query (app s)) = sentence sn
  end ->
  step Submit s
  = if truthy (trim (query (app s)))
    then set_latestQueryRef (trim (query (app s))) s else s.
Proof.
  intros Hview Hsame. simpl. rewrite Hview, bool_decide_true by done.
  unfold handleSearch_start. cbn [closure_of c_query c_searchMode c_wordData c_sentenceData].
  destruct (truthy (trim (query (app s)))) eqn:Ht; [|done].
  cbn [negb]. unfold same_as_displayed.
  cbn [closure_of c_query c_searchMode c_wordData c_sentenceData].
  destruct (searchMode (app s)).
  - destruct Hsame as (w & -> & Hid). rewrite <- Hid, toLowerCase_idem, str_eqb_refl. done.
  - destruct Hsame as (sn & -> & Hid). rewrite <- Hid, str_eqb_refl. done.
Qed.

(** Submitting " Cat" while "cat" is displayed. *)
Lemma same_query_submit_noop_witness :
  let cat := mkWordData "cat" "feline" None None in
  let s := run [Input "cat"; Submit; Resolve 0 (Json (IWord cat)); Input " Cat"]
             (mount [] [] "" 0) in
  step Submit s = set_latestQueryRef "Cat" s.
Proof.
  intros cat s.
  exact (same_query_submit_noop s eq_refl (ex_intro _ cat (conj eq_refl eq_refl))).
Defined.

(** ** The empty query *)

(** What the debounce effect does once the trimmed query is empty: the
    displayed result and the load time are cleared at once, nothing is
    scheduled or sent, and the error is not touched. *)
Lemma debounce_effect_empty_query s :
  str_length (trim (query (app s))) = 0 ->
  debounce_effect s
  = set_effectCleanup false
      (on_app (fun a => setLastLoadTime None (setSentenceData None (setWordData None a))) s).
Proof.
  intros H0. unfold debounce_effect. rewrite H0. cbn [Z.ltb Z.eqb Z.compare].
  by rewrite orb_true_r.
Qed.

(** C4, at a failing input.  "cat" is displayed and the lookup of "dog" has
    failed, so the error is shown.  Emptying the search box clears the
    displayed result at once and sends nothing, but the error stays; the
    clear button, from the same state, clears it. *)
Theorem empty_query_keeps_error :
  let cat := mkWordData "cat" "feline" None None in
  let s := run [Input "cat"; Submit; Resolve 0 (Json (IWord cat));
                Input "dog"; Submit; Resolve 0 Reject] (mount [] [] "" 0) in
  let s' := step (Input "") s in
  (wordData (app s) = Some cat /\ error (app s) = Some LOOKUP_ERROR)
  /\ query (app s') = ""
  /\ wordData (app s') = None
  /\ sentenceData (app s') = None
  /\ timers s' = []
  /\ apiCalls s' = apiCalls s
  /\ error (app s') = Some LOOKUP_ERROR
  /\ error (app (step ClearSearch s)) = None.
Proof. repeat split; reflexivity. Qed.

(** ** The debounce timer *)

Lemma same_sched_refl s : same_sched s s.
Proof. by repeat split. Qed.

Lemma same_sched_trans s1 s2 s3 : same_sched s1 s2 -> same_sched s2 s3 -> same_sched s1 s3.
Proof. unfold same_sched. intros. destruct_and!. repeat split; congruence. Qed.

Lemma add_task_sched s r : same_sched s (fst r) -> same_sched s (add_task r).
Proof. destruct r as [s' [t|]]; simpl; [|done]. by destruct s'. Qed.

Lemma search_word_done_sched q st r s : same_sched s (search_word_done q st r s).
Proof.
  destruct s. unfold search_word_done.
  repeat case_match; simplify_eq/=; by repeat split.
Qed.

Lemma search_sentence_done_sched q st r s : same_sched s (search_sentence_done q st r s).
Proof.
  destruct s. unfold search_sentence_done.
  repeat case_match; simplify_eq/=; by repeat split.
Qed.

Lemma quick_done_sched r s : same_sched s (quick_done r s).
Proof. destruct s, r; by repeat split. Qed.

Lemma handleSearch_start_sched cl s : same_sched s (fst (handleSearch_start cl s)).
Proof.
  unfold handleSearch_start, lookupWord_start, lookupSentence_start.
  repeat case_match; simplify_eq/=; try by (destruct s; repeat split).
  - eapply same_sched_trans; [|apply search_word_done_sched]. by destruct s.
  - eapply same_sched_trans; [|apply search_sentence_done_sched]. by destruct s.
Qed.

Lemma handleQuickLookup_start_sched w s : same_sched s (fst (handleQuickLookup_start w s)).
Proof.
  unfold handleQuickLookup_start, lookupWord_start.
  repeat case_match; simplify_eq/=; try by (destruct s; repeat split).
Qed.

Lemma resume_sched t o s : same_sched s (resume t o s).
Proof.
  destruct t, o as [| |[w|sn]]; simpl; try apply same_sched_refl;
    (eapply same_sched_trans;
     [|first [apply search_word_done_sched | apply search_sentence_done_sched
              | apply quick_done_sched]]);
    by destruct s.
Qed.

Lemma handleToggleSave_sched now item s : same_sched s (on_app (handleToggleSave now item) s).
Proof.
  destruct s as [a ? ? ? ? ? ? ? ? ? ? ?]. unfold same_sched, on_app.
  cbn [app timers debounceTimerRef effectCleanup nextTimerId clock].
  unfold handleToggleSave.
  destruct item as [[w|sn]|]; [| |done].
  - destruct (isItemSaved a (Some (IWord w))); repeat split; reflexivity.
  - destruct (isItemSaved a (Some (ISentence sn))); repeat split; reflexivity.
Qed.

Lemma deps_changed_false a a' :
  deps_changed a a' = false
  <-> query a = query a' /\ searchMode a = searchMode a' /\ currentView a = currentView a'.
Proof.
  unfold deps_changed. rewrite negb_false_iff. apply bool_decide_eq_true.
Qed.

Lemma same_sched_deps s s' : same_sched s s' -> deps_changed (app s) (app s') = false.
Proof. intros H. apply deps_changed_false. unfold same_sched in H. by destruct_and!. Qed.

Lemma debounce_inv_sched s s' tc : same_sched s s' -> debounce_inv s tc -> debounce_inv s' tc.
Proof.
  unfold same_sched, debounce_inv. intros Hs [Hnil|(id & t & Ht & Hinv)];
    destruct_and!; [left; congruence|].
  right. exists id, t. repeat split; congruence.
Qed.

Lemma debounce_inv_owned s tc : debounce_inv s tc -> timer_owned s.
Proof.
  intros [Hnil|(id & t & Ht & Hr & Hc & _)]; [by left|].
  right. by exists id, t.
Qed.

Lemma same_service_refl s : same_service s s.
Proof. by repeat split. Qed.

Lemma same_service_trans s1 s2 s3 :
  same_service s1 s2 -> same_service s2 s3 -> same_service s1 s3.
Proof. unfold same_service. intros. destruct_and!. repeat split; congruence. Qed.

(** Running the previous cleanup empties the timer table. *)
Lemma cleanup_clears s :
  timer_owned s ->
  let s' := if effectCleanup s then debounce_cleanup s else s in
  timers s' = [] /\ app s' = app s /\ same_service s s'
  /\ nextTimerId s' = nextTimerId s.
Proof.
  intros [Hnil|(id & t & Ht & Hr & Hc)]; cbv zeta.
  - unfold debounce_cleanup, clearTimeout.
    destruct (effectCleanup s), (debounceTimerRef s); destruct s; simplify_eq/=;
      by repeat split.
  - rewrite Hc. unfold debounce_cleanup, clearTimeout. rewrite Hr, Ht.
    destruct s; simplify_eq/=. rewrite Nat.eqb_refl. by repeat split.
Qed.

(** The effect's body on an empty timer table. *)
Lemma debounce_effect_spec s :
  timers s = [] ->
  let s' := debounce_effect s in
  same_service s s'
  /\ if (negb (bool_decide (currentView (app s) = search))
         || (str_length (trim (query (app s))) <? 2)%Z)%bool
     then timers s' = []
     else app s' = app s
          /\ timers s' = [(nextTimerId s, mkTimer (clock s + DEBOUNCE_MS) (closure_of (app s)))]
          /\ debounceTimerRef s' = Some (nextTimerId s)
          /\ effectCleanup s' = true.
Proof.
  intros Hnil. cbv zeta. unfold debounce_effect.
  destruct (negb _ || _)%bool eqn:Hb.
  - destruct s as [a m rf c wc sc k ts n fl calls ce]. simplify_eq/=.
    destruct (str_length (trim (query a)) =? 0)%Z; by repeat split.
  - unfold debounce_cleanup, clearTimeout, setTimeout. rewrite Hnil.
    destruct s as [a m rf c wc sc k ts n fl calls ce]. simplify_eq/=.
    destruct rf; by repeat split.
Qed.

(** A commit that follows a change of query, mode or view cancels what was
    pending and leaves at most the timer for the new values, due
    [DEBOUNCE_MS] from now. *)
Lemma rerender_changed before s :
  timer_owned s ->
  deps_changed before (app s) = true ->
  let s' := rerender before s in
  same_service s s'
  /\ debounce_inv s' (clock s)
  /\ if (negb (bool_decide (currentView (app s) = search))
         || (str_length (trim (query (app s))) <? 2)%Z)%bool
     then timers s' = []
     else app s' = app s
          /\ exists id,
              timers s' = [(id, mkTimer (clock s + DEBOUNCE_MS) (closure_of (app s)))].
Proof.
  intros Hown Hch. cbv zeta. unfold rerender. rewrite Hch.
  destruct (cleanup_clears s Hown) as (Hnil & Happ & Hsvc & Hn).
  set (s1 := if effectCleanup s then debounce_cleanup s else s) in *.
  destruct (debounce_effect_spec s1 Hnil) as [Hsvc' Hbr].
  assert (clock s1 = clock s) as Hclk by (unfold same_service in Hsvc; by destruct_and!).
  rewrite Happ, Hclk in Hbr.
  split; [by eapply same_service_trans|].
  destruct (negb _ || _)%bool eqn:Hb.
  - split; [by left|done].
  - destruct Hbr as (Ha & Ht & Hr & Hc).
    apply orb_false_elim in Hb as [Hv Hl].
    apply negb_false_iff, bool_decide_eq_true in Hv. apply Z.ltb_ge in Hl.
    split; [|split; [congruence|by eexists]].
    right. eexists _, _. rewrite Ha. by repeat split.
Qed.

Lemma rerender_unchanged before s :
  deps_changed before (app s) = false -> rerender before s = s.
Proof. unfold rerender. by intros ->. Qed.

Lemma deps_changed_congr a b b' :
  query b' = query b -> searchMode b' = searchMode b -> currentView b' = currentView b ->
  deps_changed a b' = deps_changed a b.
Proof. unfold deps_changed. by intros -> -> ->. Qed.

Lemma debounce_inv_clock s tc c : debounce_inv s tc -> debounce_inv (set_clock c s) tc.
Proof. by destruct s. Qed.

Lemma debounce_inv_clearTimeout s tc id :
  debounce_inv s tc -> debounce_inv (clearTimeout id s) tc.
Proof.
  intros [Hnil|(id' & t & Ht & Hinv)].
  - left. unfold clearTimeout. destruct s; simplify_eq/=. done.
  - unfold clearTimeout. destruct s as [a m rf c wc sc k ts n fl calls ce]. simplify_eq/=.
    destruct (Nat.eqb id' id); [by left|]. right. by exists id', t.
Qed.

(** A state change followed by its commit keeps the invariant; the timer is
    re-dated exactly when a dependency changed. *)
Lemma commit_inv f s tc :
  debounce_inv s tc ->
  let s' := rerender (app s) (on_app f s) in
  debounce_inv s' (if deps_changed (app s) (app s') then clock s else tc).
Proof.
  intros Hinv. cbv zeta.
  assert (timer_owned (on_app f s)) as Hown.
  { apply debounce_inv_owned in Hinv. by destruct s. }
  destruct (deps_changed (app s) (app (on_app f s))) eqn:Hch.
  - destruct (rerender_changed (app s) (on_app f s) Hown Hch) as (Hsvc & Hinv' & _).
    unfold same_service in Hsvc. destruct_and!.
    rewrite (deps_changed_congr (app s) (app (on_app f s))) by done.
    rewrite Hch. by destruct s.
  - rewrite rerender_unchanged by done. rewrite Hch.
    apply deps_changed_false in Hch. destruct_and!.
    eapply debounce_inv_sched; [|done]. destruct s; by repeat split.
Qed.

Lemma step_sched_inv s s' tc :
  same_sched s s' ->
  debounce_inv s tc ->
  debounce_inv s' (if deps_changed (app s) (app s') then clock s else tc).
Proof.
  intros Hs Hinv. rewrite (same_sched_deps s s' Hs). by eapply debounce_inv_sched.
Qed.

Lemma set_inflight_sched s fl : same_sched s (set_inflight fl s).
Proof. destruct s; by repeat split. Qed.

Lemma clearTimeout_app s id : app (clearTimeout id s) = app s.
Proof. by destruct s. Qed.

(** Every event keeps the invariant. *)
Lemma step_inv e s tc :
  debounce_inv s tc ->
  debounce_inv (step e s) (if deps_changed (app s) (app (step e s)) then clock s else tc).
Proof.
  intros Hinv. destruct e as [q|m|v| | |dt|id|i o|w|item]; cbn [step].
  - case_bool_decide; [by apply commit_inv|].
    by apply step_sched_inv; [apply same_sched_refl|].
  - by apply commit_inv.
  - by apply commit_inv.
  - case_bool_decide; [|by apply step_sched_inv; [apply same_sched_refl|]].
    apply step_sched_inv; [|done]. apply add_task_sched, handleSearch_start_sched.
  - by apply commit_inv.
  - assert (deps_changed (app s) (app (set_clock (clock s + Z.max 0 dt) s)) = false) as ->.
    { apply deps_changed_false. by destruct s. }
    by apply debounce_inv_clock.
  - destruct (find_timer id s) as [t|];
      [|by apply step_sched_inv; [apply same_sched_refl|]].
    destruct (t_due t <=? clock s)%Z;
      [|by apply step_sched_inv; [apply same_sched_refl|]].
    pose proof (add_task_sched _ _
                  (handleSearch_start_sched (t_callback t) (clearTimeout id s))) as Hs.
    rewrite (deps_changed_congr (app s) (app (clearTimeout id s)));
      try (unfold same_sched in Hs; by destruct_and!).
    rewrite clearTimeout_app.
    assert (deps_changed (app s) (app s) = false) as ->
      by (by apply deps_changed_false).
    eapply debounce_inv_sched; [exact Hs|]. by apply debounce_inv_clearTimeout.
  - destruct (inflight s !! i) as [t|];
      [|by apply step_sched_inv; [apply same_sched_refl|]].
    destruct (fits t o); [|by apply step_sched_inv; [apply same_sched_refl|]].
    apply step_sched_inv; [|done].
    eapply same_sched_trans; [apply set_inflight_sched|apply resume_sched].
  - apply step_sched_inv; [|done]. apply add_task_sched, handleQuickLookup_start_sched.
  - apply step_sched_inv; [|done]. apply handleToggleSave_sched.
Qed.

Lemma run_inv evs : forall s tc,
  debounce_inv s tc -> debounce_inv (run evs s) (last_change evs s tc).
Proof.
  induction evs as [|e evs IH]; intros s tc Hinv; [done|].
  cbn [run fold_left last_change]. apply IH. by apply step_inv.
Qed.

Lemma mount_inv words sentences url t0 : debounce_inv (mount words sentences url t0) t0.
Proof. by left. Qed.

Lemma search_word_done_service q st r s : same_service s (search_word_done q st r s).
Proof.
  destruct s. unfold search_word_done.
  repeat case_match; simplify_eq/=; by repeat split.
Qed.

Lemma search_sentence_done_service q st r s : same_service s (search_sentence_done q st r s).
Proof.
  destruct s. unfold search_sentence_done.
  repeat case_match; simplify_eq/=; by repeat split.
Qed.

Lemma add_task_apiCalls r : apiCalls (add_task r) = apiCalls (fst r).
Proof. destruct r as [s [t|]]; by destruct s. Qed.

(** A dispatch sends at most one request, for the normalized query of its
    closure. *)
Lemma handleSearch_start_calls cl s :
  apiCalls (fst (handleSearch_start cl s)) = apiCalls s
  \/ apiCalls (fst (handleSearch_start cl s))
     = apiCalls s ++ [(c_searchMode cl, normalized_query (c_searchMode cl) (c_query cl))].
Proof.
  unfold handleSearch_start, lookupWord_start, lookupSentence_start, normalized_query.
  rewrite !trim_idem.
  destruct (truthy (trim (c_query cl))); [|by left]. cbn [negb].
  destruct (same_as_displayed cl (trim (c_query cl))); [left; by destruct s|].
  destruct (c_searchMode cl).
  - cbn [wordCache on_app set_latestQueryRef].
    destruct (wordCache s !! _).
    + left. cbn [fst].
      pose proof (search_word_done_service (trim (c_query cl))
        (clock (set_latestQueryRef (trim (c_query cl)) s)) (Some w)
        (on_app (fun a => setError None (setLoading true a))
           (set_latestQueryRef (trim (c_query cl)) s))) as (-> & _).
      by destruct s.
    + right. by destruct s.
  - cbn [sentenceCache on_app set_latestQueryRef].
    destruct (sentenceCache s !! _).
    + left. cbn [fst].
      pose proof (search_sentence_done_service (trim (c_query cl))
        (clock (set_latestQueryRef (trim (c_query cl)) s)) (Some s0)
        (on_app (fun a => setError None (setLoading true a))
           (set_latestQueryRef (trim (c_query cl)) s))) as (-> & _).
      by destruct s.
    + right. by destruct s.
Qed.














(** * Further properties of the code *)

(** ** Saved collections *)

Lemma setSavedWords_id a : setSavedWords (savedWords a) a = a.
Proof. by destruct a. Qed.

Lemma setSavedSentences_id a : setSavedSentences (savedSentences a) a = a.
Proof. by destruct a. Qed.

Lemma filter_all {A} (f : A -> bool) (l : list A) :
  existsb f l = false -> List.filter (fun x => negb (f x)) l = l.
Proof.
  induction l as [|x l IH]; simpl; [done|].
  intros [Hx Hl]%orb_false_elim. rewrite Hx. simpl. by rewrite IH.
Qed.

Lemma existsb_filter_negb {A} (f : A -> bool) (l : list A) :
  existsb f (List.filter (fun x => negb (f x)) l) = false.
Proof.
  induction l as [|x l IH]; simpl; [done|].
  destruct (f x) eqn:E; simpl; [done|]. by rewrite E, IH.
Qed.

(** X1.  Saving an item that was not saved and un-saving it again gives back
    the state it started from, whatever the two clock readings. *)
Theorem toggle_twice_restores (now1 now2 : Z) (item : Item) (a : AppState) :
  isItemSaved a (Some item) = false ->
  handleToggleSave now2 (Some item) (handleToggleSave now1 (Some item) a) = a.
Proof.
  intros Hns. destruct item as [w|sn].
  - unfold handleToggleSave at 2. rewrite Hns.
    unfold handleToggleSave.
    assert (isItemSaved (setSavedWords (fresh_word now1 w :: savedWords a) a)
              (Some (IWord w)) = true) as ->.
    { destruct a. simpl. by rewrite str_eqb_refl. }
    replace (savedWords (setSavedWords (fresh_word now1 w :: savedWords a) a))
      with (fresh_word now1 w :: savedWords a) by (by destruct a).
    cbn [List.filter fresh_word word]. rewrite str_eqb_refl. cbn [negb].
    rewrite filter_all by exact Hns. by destruct a.
  - unfold handleToggleSave at 2. rewrite Hns.
    unfold handleToggleSave.
    assert (isItemSaved (setSavedSentences (fresh_sentence now1 sn :: savedSentences a) a)
              (Some (ISentence sn)) = true) as ->.
    { destruct a. simpl. by rewrite str_eqb_refl. }
    replace (savedSentences (setSavedSentences (fresh_sentence now1 sn :: savedSentences a) a))
      with (fresh_sentence now1 sn :: savedSentences a) by (by destruct a).
    cbn [List.filter fresh_sentence sentence]. rewrite str_eqb_refl. cbn [negb].
    rewrite filter_all by exact Hns. by destruct a.
Qed.

Lemma toggle_twice_restores_witness :
  let other := mkWordData "walk" "to move slowly" (Some 1) (Some 10) in
  let a := mkApp "" word_mode None None false false None None search ""
             None [other] [] [] in
  let run_ := IWord (mkWordData "Run" "to move fast" None None) in
  handleToggleSave 7 (Some run_) (handleToggleSave 5 (Some run_) a) = a.
Proof.
  intros other a run_. exact (toggle_twice_restores 5 7 run_ a eq_refl).
Defined.

(** X2.  A toggle flips the saved status of its item and of nothing else: an
    item of another identity is saved afterwards exactly when it was
    before. *)
Theorem toggle_flips_saved (now : Z) (item other : Item) (a : AppState) :
  let a' := handleToggleSave now (Some item) a in
  isItemSaved a' (Some item) = negb (isItemSaved a (Some item))
  /\ (match item, other with
      | IWord w, IWord w' => toLowerCase (word w') <> toLowerCase (word w)
      | ISentence sn, ISentence sn' => sentence sn' <> sentence sn
      | _, _ => True
      end ->
      isItemSaved a' (Some other) = isItemSaved a (Some other)).
Proof.
  cbv zeta. split.
  - destruct item as [w|sn]; unfold handleToggleSave;
      destruct (isItemSaved a _) eqn:E; destruct a; simpl in *;
      rewrite ?str_eqb_refl; try done.
    + apply (existsb_filter_negb
               (fun x => str_eqb (toLowerCase (word x)) (toLowerCase (word w)))).
    + apply (existsb_filter_negb (fun x => str_eqb (sentence x) (sentence sn))).
  - intros Hne.
    destruct item as [w|sn], other as [w'|sn']; unfold handleToggleSave;
      destruct (isItemSaved a _) eqn:E; destruct a; simpl in *; try done.
    + clear E. induction savedWords0 as [|x l IH]; simpl; [done|].
      destruct (str_eqb (toLowerCase (word x)) (toLowerCase (word w))) eqn:Ex; simpl.
      * apply str_eqb_true in Ex.
        assert (str_eqb (toLowerCase (word x)) (toLowerCase (word w')) = false) as ->
          by (apply str_eqb_false; congruence).
        exact IH.
      * f_equal. exact IH.
    + rewrite (proj2 (str_eqb_false _ _)); [done|]. congruence.
    + clear E. induction savedSentences0 as [|x l IH]; simpl; [done|].
      destruct (str_eqb (sentence x) (sentence sn)) eqn:Ex; simpl.
      * apply str_eqb_true in Ex.
        assert (str_eqb (sentence x) (sentence sn') = false) as ->
          by (apply str_eqb_false; congruence).
        exact IH.
      * f_equal. exact IH.
    + rewrite (proj2 (str_eqb_false _ _)); [done|]. congruence.
Qed.

Lemma toggle_flips_saved_witness :
  let stored := mkWordData "Run" "to move fast" (Some 2) (Some 50) in
  let walk := mkWordData "walk" "to move slowly" (Some 0) (Some 10) in
  let a := mkApp "" word_mode None None false false None None search ""
             None [stored; walk] [] [] in
  isItemSaved (handleToggleSave 9 (Some (IWord stored)) a) (Some (IWord walk)) = true.
Proof.
  intros stored walk a.
  refine (eq_trans (proj2 (toggle_flips_saved 9 (IWord stored) (IWord walk) a) _) eq_refl).
  simpl. discriminate.
Defined.

Lemma NoDup_map_filter {A B} (f : A -> B) (p : A -> bool) (l : list A) :
  NoDup (List.map f l) -> NoDup (List.map f (List.filter p l)).
Proof.
  induction l as [|x l IH]; simpl; [done|].
  intros [Hx Hl]%NoDup_cons. destruct (p x); simpl; [|by apply IH].
  apply NoDup_cons. split; [|by apply IH].
  intros Hin. apply Hx. apply list_elem_of_In in Hin. apply list_elem_of_In.
  apply in_map_iff in Hin as (y & Hy & Hin). apply in_map_iff.
  exists y. split; [done|]. by apply filter_In in Hin as [? _].
Qed.

Lemma map_replace_key {A B} (f : A -> B) (same : A -> bool) (w : A) (l : list A) :
  (forall old, same old = true -> f w = f old) ->
  List.map f (List.map (fun old => if same old then w else old) l) = List.map f l.
Proof.
  intros Hsame. induction l as [|x l IH]; simpl; [done|].
  rewrite IH. destruct (same x) eqn:E; [|done]. by rewrite (Hsame x E).
Qed.

Lemma map_replace_none {A} (same : A -> bool) (w : A) (l : list A) :
  Forall (fun old => same old = false) l ->
  List.map (fun old => if same old then w else old) l = l.
Proof.
  induction 1 as [|old l Hold Hall IH]; simpl; [done|]. by rewrite Hold, IH.
Qed.

Lemma existsb_key {A B} (g : B -> bool) (f : A -> B) (l : list A) :
  existsb (fun x => g (f x)) l = existsb g (List.map f l).
Proof. induction l as [|x l IH]; simpl; [done|]. by rewrite IH. Qed.

Lemma existsb_false_not_In (k : string) (l : list string) :
  existsb (fun x => str_eqb x k) l = false -> ~ In k l.
Proof.
  induction l as [|x l IH]; simpl; [tauto|].
  intros [Hx Hl]%orb_false_elim [->|Hin]; [by rewrite str_eqb_refl in Hx|by apply IH].
Qed.

(** X3.  The uniqueness of identities within each collection (words
    case-insensitively, sentences by exact text) is kept by every operation
    on the collections: toggling, removing from the flashcard page, and the
    study session's update. *)
Theorem collections_unique_kept (now : Z) (item : option Item) (s : string) (w : Item)
    (a : AppState) :
  collections_unique a ->
  collections_unique (handleToggleSave now item a)
  /\ collections_unique (onRemoveWord s a)
  /\ collections_unique (onRemoveSentence s a)
  /\ collections_unique (onUpdateWord w a).
Proof.
  intros [Hw Hs]. unfold collections_unique, unique_words, unique_sentences in *.
  repeat split.
  - destruct item as [[x|sn]|]; [| |done]; unfold handleToggleSave;
      destruct (isItemSaved a _) eqn:E; destruct a; simpl in *; try done.
    + by apply NoDup_map_filter.
    + apply NoDup_cons. split; [|done]. rewrite list_elem_of_In.
      apply existsb_false_not_In.
      by rewrite <- (existsb_key (fun k => str_eqb k (toLowerCase (word x)))).
  - destruct item as [[x|sn]|]; [| |done]; unfold handleToggleSave;
      destruct (isItemSaved a _) eqn:E; destruct a; simpl in *; try done.
    + by apply NoDup_map_filter.
    + apply NoDup_cons. split; [|done]. rewrite list_elem_of_In.
      apply existsb_false_not_In.
      by rewrite <- (existsb_key (fun k => str_eqb k (sentence sn))).
  - destruct a; simpl in *. by apply NoDup_map_filter.
  - by destruct a.
  - by destruct a.
  - destruct a; simpl in *. by apply NoDup_map_filter.
  - destruct w as [x|sn]; destruct a; simpl in *; [|done].
    rewrite (map_replace_key (fun w => toLowerCase (word w))); [done|].
    by intros old ->%str_eqb_true.
  - destruct w as [x|sn]; destruct a; simpl in *; [done|].
    rewrite (map_replace_key sentence); [done|].
    by intros old ->%str_eqb_true.
Qed.

Lemma collections_unique_kept_witness :
  let stored := mkWordData "Run" "to move fast" (Some 2) (Some 50) in
  let walk := mkWordData "walk" "to move slowly" (Some 0) (Some 10) in
  let a := mkApp "" word_mode None None false false None None search ""
             None [stored; walk] [] [] in
  collections_unique (handleToggleSave 9 (Some (IWord (mkWordData "run" "" None None))) a).
Proof.
  intros stored walk a.
  refine (proj1 (collections_unique_kept 9 _ "" (IWord walk) a _)).
  split; [|apply NoDup_nil_2].
  apply NoDup_cons_2; [|apply NoDup_singleton].
  intros [=]%list_elem_of_singleton.
Defined.

(** X4.  The study session's update never adds or removes an entry and never
    changes an identity: the texts of both collections, in order, are what
    they were, so every item is saved afterwards exactly when it was
    before; updating an item that is not stored changes nothing. *)
Theorem onUpdateWord_keeps_identities (w : Item) (a : AppState) :
  let a' := onUpdateWord w a in
  List.map word (savedWords a') = List.map word (savedWords a)
  /\ List.map sentence (savedSentences a') = List.map sentence (savedSentences a)
  /\ (forall item, isItemSaved a' item = isItemSaved a item)
  /\ (match w with
      | IWord x => Forall (fun old => word old <> word x) (savedWords a)
      | ISentence sn => Forall (fun old => sentence old <> sentence sn) (savedSentences a)
      end -> a' = a).
Proof.
  cbv zeta.
  assert (List.map word (savedWords (onUpdateWord w a)) = List.map word (savedWords a)
          /\ List.map sentence (savedSentences (onUpdateWord w a))
             = List.map sentence (savedSentences a)) as [Hw Hs].
  { destruct w as [x|sn]; destruct a; simpl; split; try done.
    - apply (map_replace_key word). by intros old ->%str_eqb_true.
    - apply (map_replace_key sentence). by intros old ->%str_eqb_true. }
  split; [done|]. split; [done|]. split.
  - intros [[x|sn]|]; [| |done]; unfold isItemSaved.
    + rewrite !(existsb_key (fun k => str_eqb (toLowerCase k) (toLowerCase (word x))) word).
      by rewrite Hw.
    + rewrite !(existsb_key (fun k => str_eqb k (sentence sn)) sentence).
      by rewrite Hs.
  - destruct w as [x|sn]; intros Hall; unfold onUpdateWord.
    + rewrite map_replace_none; [apply setSavedWords_id|].
      eapply Forall_impl; [exact Hall|]. intros old Hold. by apply str_eqb_false.
    + rewrite map_replace_none; [apply setSavedSentences_id|].
      eapply Forall_impl; [exact Hall|]. intros old Hold. by apply str_eqb_false.
Qed.

Lemma onUpdateWord_keeps_identities_witness :
  let walk := mkWordData "walk" "to move slowly" (Some 0) (Some 10) in
  let a := mkApp "" word_mode None None false false None None search ""
             None [walk] [] [] in
  onUpdateWord (IWord (mkWordData "Walk" "" (Some 3) (Some 90))) a = a.
Proof.
  intros walk a.
  refine (proj2 (proj2 (proj2 (onUpdateWord_keeps_identities
            (IWord (mkWordData "Walk" "" (Some 3) (Some 90))) a))) _).
  constructor; [discriminate|constructor].
Defined.

Lemma NoDup_map_inj_on {A B} (f : A -> B) (l : list A) (x y : A) :
  NoDup (List.map f l) -> In x l -> In y l -> f x = f y -> x = y.
Proof.
  induction l as [|z l IH]; simpl; [done|].
  intros [Hz Hl]%NoDup_cons [->|Hx] [->|Hy] Hf; try done.
  - exfalso. apply Hz. rewrite Hf. apply list_elem_of_In, in_map_iff. by exists y.
  - exfalso. apply Hz. rewrite <- Hf. apply list_elem_of_In, in_map_iff. by exists x.
  - by apply IH.
Qed.

(** X5.  Removing from the flashcard page goes by the exact text, for
    words and for sentences alike: the collection becomes its entries with
    another text, in their order, and no other cell of the state changes
    (in particular not the other collection).  For sentences this un-saves
    the entry; for words, which are looked up case-insensitively, it does so
    when identities are unique in the collection. *)
Theorem onRemoveWord_unsaves (s : string) (x : WordData) (sn : SentenceData)
    (a : AppState) :
  savedWords (onRemoveWord s a) = filter (fun w => word w <> s) (savedWords a)
  /\ onRemoveWord s a = setSavedWords (savedWords (onRemoveWord s a)) a
  /\ savedSentences (onRemoveSentence s a)
     = filter (fun y => sentence y <> s) (savedSentences a)
  /\ onRemoveSentence s a = setSavedSentences (savedSentences (onRemoveSentence s a)) a
  /\ isItemSaved (onRemoveSentence (sentence sn) a) (Some (ISentence sn)) = false
  /\ (unique_words (savedWords a) ->
      In x (savedWords a) ->
      isItemSaved (onRemoveWord (word x) a) (Some (IWord x)) = false).
Proof.
  split; [|split; [|split; [|split; [|split]]]].
  - destruct a; simpl.
    apply (filter_negb_spec (fun w => word w = s) (fun w => str_eqb (word w) s)).
    intros w. apply str_eqb_true.
  - by destruct a.
  - destruct a; simpl.
    apply (filter_negb_spec (fun y => sentence y = s) (fun y => str_eqb (sentence y) s)).
    intros y. apply str_eqb_true.
  - by destruct a.
  - destruct a; simpl.
    apply (existsb_filter_negb (fun y => str_eqb (sentence y) (sentence sn))).
  - intros Huniq Hin. apply not_true_is_false. intros Hsaved.
    destruct a; simpl in *. apply existsb_exists in Hsaved as (y & Hy & Heq).
    apply filter_In in Hy as [Hy Hne]. apply negb_true_iff, str_eqb_false in Hne.
    apply str_eqb_true in Heq. apply Hne. f_equal.
    by apply (NoDup_map_inj_on (fun w => toLowerCase (word w)) savedWords0).
Qed.

Lemma onRemoveWord_unsaves_witness :
  let stored := mkWordData "Run" "to move fast" (Some 2) (Some 50) in
  let walk := mkWordData "walk" "to move slowly" (Some 0) (Some 10) in
  let a := mkApp "" word_mode None None false false None None search ""
             None [stored; walk] [mkSentenceData "Hi there" "" None None] [] in
  isItemSaved (onRemoveWord "Run" a) (Some (IWord stored)) = false.
Proof.
  intros stored walk a.
  refine (proj2 (proj2 (proj2 (proj2 (proj2
            (onRemoveWord_unsaves "" stored (mkSentenceData "" "" None None) a)))))
            _ _).
  - apply NoDup_cons_2; [|apply NoDup_singleton].
    intros [=]%list_elem_of_singleton.
  - left. reflexivity.
Defined.

(** ** Due counts *)

Lemma filter_length_mono {A} (f g : A -> bool) (l : list A) :
  (forall x, f x = true -> g x = true) ->
  (length (List.filter f l) <= length (List.filter g l))%nat.
Proof.
  intros Hfg. induction l as [|x l IH]; simpl; [done|].
  destruct (f x) eqn:Ef.
  - rewrite (Hfg x Ef). simpl. lia.
  - destruct (g x); simpl; lia.
Qed.

Lemma is_due_mono now now' t : (now <= now')%Z -> is_due now t = true -> is_due now' t = true.
Proof.
  intros Hle. destruct t as [t|]; simpl; [|done].
  intros [H0|Ht]%orb_true_iff; apply orb_true_iff; [by left|right].
  apply Z.leb_le in Ht. apply Z.leb_le. lia.
Qed.

(** X6.  Due counts only grow as time passes, and never exceed the size of
    their collection. *)
Theorem due_counts_grow (now now' : Z) (a : AppState) :
  (now <= now')%Z ->
  (dueWordsCount now a <= dueWordsCount now' a <= length (savedWords a))%nat
  /\ (dueSentencesCount now a <= dueSentencesCount now' a <= length (savedSentences a))%nat.
Proof.
  intros Hle. unfold dueWordsCount, dueSentencesCount. repeat split.
  - apply filter_length_mono. intros x. by apply is_due_mono.
  - apply List.filter_length_le.
  - apply filter_length_mono. intros x. by apply is_due_mono.
  - apply List.filter_length_le.
Qed.

Lemma due_counts_grow_witness :
  let a := mkApp "" word_mode None None false false None None search "" None
             [mkWordData "run" "" (Some 1) (Some 50); mkWordData "walk" "" (Some 0) None]
             [] [] in
  (dueWordsCount 10 a <= dueWordsCount 60 a <= 2)%nat.
Proof.
  intros a. refine (proj1 (due_counts_grow 10 60 a _)). lia.
Defined.

(** X7.  An item that is newly saved is due from the moment it is saved: the
    two due counts together grow by one and the badge is on. *)
Theorem new_item_is_due (t now : Z) (item : Item) (a : AppState) :
  isItemSaved a (Some item) = false ->
  (t <= now)%Z ->
  let a' := handleToggleSave t (Some item) a in
  (dueWordsCount now a' + dueSentencesCount now a'
   = S (dueWordsCount now a + dueSentencesCount now a))%nat
  /\ due_badge now a' = true.
Proof.
  intros Hns Hle. cbv zeta.
  assert (is_due now (Some t) = true) as Hdue.
  { simpl. apply orb_true_iff. right. by apply Z.leb_le. }
  assert (dueWordsCount now (handleToggleSave t (Some item) a)
          + dueSentencesCount now (handleToggleSave t (Some item) a)
          = S (dueWordsCount now a + dueSentencesCount now a))%nat as Hcount.
  { destruct item as [w|sn]; unfold handleToggleSave; rewrite Hns;
      unfold dueWordsCount, dueSentencesCount; destruct a;
      cbn [savedWords savedSentences setSavedWords setSavedSentences List.filter
             fresh_word fresh_sentence w_next_review s_next_review];
      rewrite Hdue; simpl; lia. }
  split; [done|]. unfold due_badge. rewrite Hcount. done.
Qed.

Lemma new_item_is_due_witness :
  let a := mkApp "" word_mode None None false false None None search "" None [] [] [] in
  due_badge 5 (handleToggleSave 5 (Some (IWord (mkWordData "run" "" None None))) a) = true.
Proof.
  intros a.
  refine (proj2 (new_item_is_due 5 5 (IWord (mkWordData "run" "" None None)) a eq_refl _)).
  lia.
Defined.

(** ** Invariants of the event loop *)

Ltac crush_state :=
  repeat match goal with
         | s : Sys |- _ => destruct s
         | a : AppState |- _ => destruct a
         end;
  simpl in *.

Lemma search_word_done_display q st r s :
  display_inv (app s) -> display_inv (app (search_word_done q st r s)).
Proof.
  unfold display_inv, search_word_done. intros [He Hd].
  crush_state. repeat case_match; simplify_eq/=; split; auto; congruence.
Qed.

Lemma search_sentence_done_display q st r s :
  display_inv (app s) -> display_inv (app (search_sentence_done q st r s)).
Proof.
  unfold display_inv, search_sentence_done. intros [He Hd].
  crush_state. repeat case_match; simplify_eq/=; split; auto; congruence.
Qed.

Lemma handleSearch_start_display cl s :
  display_inv (app s) -> display_inv (app (fst (handleSearch_start cl s))).
Proof.
  intros Hinv. unfold handleSearch_start, lookupWord_start, lookupSentence_start.
  destruct (truthy _); [|done]. cbn [negb].
  destruct (same_as_displayed _ _); [by destruct s|].
  assert (display_inv (app (on_app (fun a => setError None (setLoading true a))
                              (set_latestQueryRef (trim (c_query cl)) s)))) as Hinv'.
  { destruct Hinv as [He Hd]. crush_state. by split. }
  destruct (c_searchMode cl).
  - destruct (wordCache _ !! _); cbn [fst];
      [by apply search_word_done_display|by destruct s as [[]]].
  - destruct (sentenceCache _ !! _); cbn [fst];
      [by apply search_sentence_done_display|by destruct s as [[]]].
Qed.

Lemma add_task_app r : app (add_task r) = app (fst r).
Proof. destruct r as [s [t|]]; by destruct s. Qed.

Lemma resume_display t o s : display_inv (app s) -> display_inv (app (resume t o s)).
Proof.
  intros Hinv. destruct t, o as [| |[w|sn]]; simpl; try done;
    first [apply search_word_done_display | apply search_sentence_done_display
           | idtac]; try (by destruct s).
  all: destruct Hinv as [He Hd]; crush_state; by split.
Qed.

Lemma handleQuickLookup_start_display w s :
  display_inv (app s) -> display_inv (app (fst (handleQuickLookup_start w s))).
Proof.
  intros [He Hd]. unfold handleQuickLookup_start, lookupWord_start, display_inv.
  crush_state. repeat case_match; simplify_eq/=; by split.
Qed.

Lemma rerender_display before s :
  display_inv (app s) -> display_inv (app (rerender before s)).
Proof.
  intros [He Hd]. unfold rerender, debounce_effect, debounce_cleanup, clearTimeout,
    setTimeout, display_inv.
  crush_state. repeat case_match; simplify_eq/=; split; auto.
Qed.

Lemma step_display e s : display_inv (app s) -> display_inv (app (step e s)).
Proof.
  intros Hinv. destruct e as [q|m|v| | |dt|id|i o|w|item]; cbn [step].
  - case_bool_decide; [|done]. apply rerender_display.
    destruct Hinv. crush_state. by split.
  - apply rerender_display. destruct Hinv. crush_state. by split.
  - apply rerender_display. destruct Hinv. crush_state. by split.
  - case_bool_decide; [|done]. rewrite add_task_app. by apply handleSearch_start_display.
  - apply rerender_display. crush_state. split; [done|by left].
  - by destruct s.
  - destruct (find_timer id s) as [t|]; [|done].
    destruct (t_due t <=? clock s)%Z; [|done].
    rewrite add_task_app. apply handleSearch_start_display. by destruct s.
  - destruct (inflight s !! i) as [t|]; [|done]. destruct (fits t o); [|done].
    apply resume_display. by destruct s.
  - rewrite add_task_app. by apply handleQuickLookup_start_display.
  - destruct Hinv as [He Hd]. unfold handleToggleSave, display_inv.
    crush_state. repeat case_match; simplify_eq/=; by split.
Qed.

(** X8.  In every state the application can reach, the error banner is up only
    when the loading skeleton is not, and the word result and the sentence
    result are never both set. *)
Theorem display_inv_reachable (words : list WordData) (sentences : list SentenceData)
    (url : string) (t0 : Z) (evs : list Event) :
  display_inv (app (run evs (mount words sentences url t0))).
Proof.
  assert (forall s, display_inv (app s) -> display_inv (app (run evs s))) as Hrun.
  { induction evs as [|e evs IH]; intros s Hs; [done|].
    cbn [run fold_left]. apply IH. by apply step_display. }
  apply Hrun. split; [done|by left].
Qed.

(** *** Requests *)

Lemma toLowerCase_nonempty s : truthy s = true -> toLowerCase s <> "".
Proof. by destruct s. Qed.

Lemma truthy_nonempty s : truthy s = true -> s <> "".
Proof. by destruct s. Qed.

Lemma handleSearch_start_sent cl s : sent_at_most_one s (fst (handleSearch_start cl s)).
Proof.
  unfold sent_at_most_one.
  destruct (truthy (trim (c_query cl))) eqn:Ht.
  - destruct (handleSearch_start_calls cl s) as [H|H]; [by left|right].
    exists (c_searchMode cl), (normalized_query (c_searchMode cl) (c_query cl)).
    split; [|done]. unfold normalized_query.
    destruct (c_searchMode cl); [by apply toLowerCase_nonempty|by apply truthy_nonempty].
  - left. unfold handleSearch_start. by rewrite Ht.
Qed.

Lemma handleQuickLookup_start_sent w s :
  sent_at_most_one s (fst (handleQuickLookup_start w s)).
Proof.
  unfold sent_at_most_one, handleQuickLookup_start, lookupWord_start.
  destruct (truthy (trim (strip_punct w))) eqn:Ht; [|by left]. cbn [negb orb].
  destruct (_ <? 2)%Z; [by left|].
  cbn [wordCache on_app]. destruct (wordCache s !! _).
  - left. by destruct s.
  - right. exists word_mode, (toLowerCase (trim (trim (strip_punct w)))).
    split; [|by destruct s]. rewrite trim_idem. by apply toLowerCase_nonempty.
Qed.

Lemma rerender_apiCalls before s : apiCalls (rerender before s) = apiCalls s.
Proof.
  unfold rerender, debounce_effect, debounce_cleanup, clearTimeout, setTimeout.
  destruct s. simpl. repeat case_match; simplify_eq/=; done.
Qed.

Lemma resume_apiCalls t o s : apiCalls (resume t o s) = apiCalls s.
Proof.
  destruct t, o as [| |[w|sn]]; simpl; try done;
    unfold search_word_done, search_sentence_done, quick_done;
    destruct s; simpl; repeat case_match; simplify_eq/=; done.
Qed.

(** X9.  Every event sends at most one request and never one for an empty key;
    only a submit, a timer that runs and a quick lookup send any: typing,
    switching mode or view, clearing, the passing of time, a response and
    saving send none. *)
Theorem requests_sent (e : Event) (s : Sys) :
  sent_at_most_one s (step e s)
  /\ match e with
     | Submit | Fire _ | QuickLookup _ => True
     | _ => apiCalls (step e s) = apiCalls s
     end.
Proof.
  assert (match e with
          | Submit | Fire _ | QuickLookup _ => sent_at_most_one s (step e s)
          | _ => apiCalls (step e s) = apiCalls s
          end) as H.
  { destruct e as [q|m|v| | |dt|id|i o|w|item]; cbn [step].
    - case_bool_decide; [|done]. rewrite rerender_apiCalls. by destruct s.
    - rewrite rerender_apiCalls. by destruct s.
    - rewrite rerender_apiCalls. by destruct s.
    - case_bool_decide; [|by left]. unfold sent_at_most_one.
      rewrite add_task_apiCalls. apply handleSearch_start_sent.
    - rewrite rerender_apiCalls. by destruct s.
    - by destruct s.
    - destruct (find_timer id s) as [t|]; [|by left].
      destruct (t_due t <=? clock s)%Z; [|by left].
      unfold sent_at_most_one. rewrite add_task_apiCalls.
      replace (apiCalls s) with (apiCalls (clearTimeout id s)) by (by destruct s).
      apply handleSearch_start_sent.
    - destruct (inflight s !! i) as [t|]; [|done]. destruct (fits t o); [|done].
      rewrite resume_apiCalls. by destruct s.
    - unfold sent_at_most_one. rewrite add_task_apiCalls.
      apply handleQuickLookup_start_sent.
    - by destruct s. }
  destruct e; (split; [first [exact H | by left]|first [exact H | exact I]]).
Qed.

(** *** The memoizer over a session *)

Lemma caches_kept_refl s : caches_kept s s.
Proof. by split. Qed.

Lemma caches_kept_trans s1 s2 s3 : caches_kept s1 s2 -> caches_kept s2 s3 -> caches_kept s1 s3.
Proof. intros [H1 H1'] [H2 H2']. split; auto. Qed.

Lemma caches_kept_eq s s' :
  wordCache s' = wordCache s -> sentenceCache s' = sentenceCache s -> caches_kept s s'.
Proof. intros Hw Hs. split; intros k; by rewrite ?Hw, ?Hs. Qed.

Lemma rerender_caches before s : caches_kept s (rerender before s).
Proof.
  apply caches_kept_eq;
    unfold rerender, debounce_effect, debounce_cleanup, clearTimeout, setTimeout;
    destruct s; simpl; repeat case_match; simplify_eq/=; done.
Qed.

Lemma handleSearch_start_caches cl s : caches_kept s (fst (handleSearch_start cl s)).
Proof.
  apply caches_kept_eq;
    unfold handleSearch_start, lookupWord_start, lookupSentence_start,
      search_word_done, search_sentence_done;
    destruct s; simpl; repeat case_match; simplify_eq/=; done.
Qed.

Lemma handleQuickLookup_start_caches w s : caches_kept s (fst (handleQuickLookup_start w s)).
Proof.
  apply caches_kept_eq;
    unfold handleQuickLookup_start, lookupWord_start, quick_done;
    destruct s; simpl; repeat case_match; simplify_eq/=; done.
Qed.

Lemma add_task_caches s r : caches_kept s (fst r) -> caches_kept s (add_task r).
Proof.
  intros H. eapply caches_kept_trans; [exact H|].
  destruct r as [s' [t|]]; apply caches_kept_eq; by destruct s'.
Qed.

Lemma resume_caches t o s : caches_kept s (resume t o s).
Proof.
  assert (forall (wc : gmap string WordData) k k' v,
             is_Some (wc !! k) -> is_Some (<[k' := v]> wc !! k)) as Hw.
  { intros wc k k' v Hk. rewrite lookup_insert_is_Some.
    destruct (decide (k' = k)); [by left|by right]. }
  assert (forall (sc : gmap string SentenceData) k k' v,
             is_Some (sc !! k) -> is_Some (<[k' := v]> sc !! k)) as Hs.
  { intros sc k k' v Hk. rewrite lookup_insert_is_Some.
    destruct (decide (k' = k)); [by left|by right]. }
  destruct t, o as [| |[w|sn]]; simpl; try apply caches_kept_refl;
    unfold search_word_done, search_sentence_done, quick_done;
    destruct s; split; simpl; intros k Hk;
    repeat case_match; simplify_eq/=; auto.
Qed.

Lemma step_caches e s : caches_kept s (step e s).
Proof.
  destruct e as [q|m|v| | |dt|id|i o|w|item]; cbn [step].
  - case_bool_decide; [|apply caches_kept_refl].
    eapply caches_kept_trans; [|apply rerender_caches]. apply caches_kept_eq; by destruct s.
  - eapply caches_kept_trans; [|apply rerender_caches]. apply caches_kept_eq; by destruct s.
  - eapply caches_kept_trans; [|apply rerender_caches]. apply caches_kept_eq; by destruct s.
  - case_bool_decide; [|apply caches_kept_refl].
    apply add_task_caches, handleSearch_start_caches.
  - eapply caches_kept_trans; [|apply rerender_caches]. apply caches_kept_eq; by destruct s.
  - apply caches_kept_eq; by destruct s.
  - destruct (find_timer id s) as [t|]; [|apply caches_kept_refl].
    destruct (t_due t <=? clock s)%Z; [|apply caches_kept_refl].
    apply add_task_caches.
    eapply caches_kept_trans; [|apply handleSearch_start_caches].
    apply caches_kept_eq; by destruct s.
  - destruct (inflight s !! i) as [t|]; [|apply caches_kept_refl].
    destruct (fits t o); [|apply caches_kept_refl].
    eapply caches_kept_trans; [|apply resume_caches]. apply caches_kept_eq; by destruct s.
  - apply add_task_caches, handleQuickLookup_start_caches.
  - apply caches_kept_eq; by destruct s.
Qed.

Lemma run_caches evs : forall s, caches_kept s (run evs s).
Proof.
  induction evs as [|e evs IH]; intros s; [apply caches_kept_refl|].
  cbn [run fold_left]. eapply caches_kept_trans; [apply step_caches|apply IH].
Qed.

(** X10.  Nothing is ever evicted: a query that is memoized stays memoized for
    the rest of the session, whatever happens, and a lookup of it then
    returns from the cache without sending a request or changing the
    state.  Both modes. *)
Theorem memoized_for_session (evs : list Event) (s : Sys) (input : string) :
  (is_Some (wordCache s !! toLowerCase (trim input)) ->
   exists v, lookupWord_start input (run evs s) = (inl v, run evs s))
  /\ (is_Some (sentenceCache s !! trim input) ->
      exists v, lookupSentence_start input (run evs s) = (inl v, run evs s)).
Proof.
  destruct (run_caches evs s) as [Hw Hs]. split; intros Hk.
  - destruct (Hw _ Hk) as [v Hv]. exists v. unfold lookupWord_start. by rewrite Hv.
  - destruct (Hs _ Hk) as [v Hv]. exists v. unfold lookupSentence_start. by rewrite Hv.
Qed.

Lemma memoized_for_session_witness :
  let cat := mkWordData "cat" "feline" None None in
  let dog := mkWordData "dog" "canine" None None in
  let s := run [Input "cat"; Submit; Resolve 0 (Json (IWord cat))] (mount [] [] "" 0) in
  let later := run [Input "dog"; Submit; Resolve 0 (Json (IWord dog)); ClearSearch] s in
  exists v, lookupWord_start " Cat" later = (inl v, later).
Proof.
  intros cat dog s later.
  refine (proj1 (memoized_for_session _ s " Cat") _).
  exists cat. reflexivity.
Defined.

(** *** Load times *)

Lemma search_word_done_timing q st r s :
  (st <= clock s)%Z -> timing_inv s -> timing_inv (search_word_done q st r s).
Proof.
  unfold timing_inv, search_word_done. intros Hst [Hfl Hd].
  destruct s as [[] ? ? ? ? ? ? ? ? ? ? ?]. simpl in *.
  repeat case_match; simplify_eq/=; split; auto; intros d [= <-]; lia.
Qed.

Lemma search_sentence_done_timing q st r s :
  (st <= clock s)%Z -> timing_inv s -> timing_inv (search_sentence_done q st r s).
Proof.
  unfold timing_inv, search_sentence_done. intros Hst [Hfl Hd].
  destruct s as [[] ? ? ? ? ? ? ? ? ? ? ?]. simpl in *.
  repeat case_match; simplify_eq/=; split; auto; intros d [= <-]; lia.
Qed.

Lemma timing_inv_frame s s' :
  inflight s' = inflight s -> clock s' = clock s ->
  lastLoadTime (app s') = lastLoadTime (app s) \/ lastLoadTime (app s') = None ->
  timing_inv s -> timing_inv s'.
Proof.
  unfold timing_inv. intros -> -> Hl [Hfl Hd]. split; [done|].
  intros d. destruct Hl as [-> | ->]; [apply Hd|done].
Qed.

Lemma handleSearch_start_timing cl s :
  timing_inv s -> timing_inv (add_task (handleSearch_start cl s)).
Proof.
  intros Hinv. unfold handleSearch_start, lookupWord_start, lookupSentence_start.
  destruct (truthy _); [|done]. cbn [negb].
  destruct (same_as_displayed _ _);
    [by apply (timing_inv_frame s); [..|left|]; destruct s|].
  assert (timing_inv (on_app (fun a => setError None (setLoading true a))
                        (set_latestQueryRef (trim (c_query cl)) s))) as Hinv'.
  { apply (timing_inv_frame s); [..|left|done]; by destruct s as [[]]. }
  destruct (c_searchMode cl).
  - cbn [wordCache on_app set_latestQueryRef clock]. destruct (wordCache s !! _).
    + cbn [add_task]. apply search_word_done_timing; [by destruct s|done].
    + cbn [add_task]. destruct Hinv as [Hfl Hd]. destruct s as [[]]. split; simpl in *.
      * apply Forall_app. split; [done|]. constructor; [|done]. by intros st [= <-].
      * done.
  - cbn [sentenceCache on_app set_latestQueryRef clock]. destruct (sentenceCache s !! _).
    + cbn [add_task]. apply search_sentence_done_timing; [by destruct s|done].
    + cbn [add_task]. destruct Hinv as [Hfl Hd]. destruct s as [[]]. split; simpl in *.
      * apply Forall_app. split; [done|]. constructor; [|done]. by intros st [= <-].
      * done.
Qed.

Lemma handleQuickLookup_start_timing w s :
  timing_inv s -> timing_inv (add_task (handleQuickLookup_start w s)).
Proof.
  intros [Hfl Hd]. unfold handleQuickLookup_start, lookupWord_start, quick_done.
  destruct s as [[]]. simpl in *.
  repeat case_match; simplify_eq/=; split; simpl; auto.
  apply Forall_app. split; [done|]. by constructor.
Qed.

Lemma resume_timing t o s :
  (forall st, task_start t = Some st -> (st <= clock s)%Z) ->
  timing_inv s -> timing_inv (resume t o s).
Proof.
  intros Hst Hinv.
  destruct t as [q st key|q st key|key], o as [| |[w|sn]]; simpl; try done;
    first [ apply search_word_done_timing; [by apply Hst|]
          | apply search_sentence_done_timing; [by apply Hst|]
          | idtac ];
    apply (timing_inv_frame s); try done; try (left; by destruct s as [[]]);
    by destruct s as [[]].
Qed.

Lemma rerender_timing before s : timing_inv s -> timing_inv (rerender before s).
Proof.
  intros Hinv. apply (timing_inv_frame s); [| | |done];
    unfold rerender, debounce_effect, debounce_cleanup, clearTimeout, setTimeout;
    destruct s as [[]]; simpl; repeat case_match; simplify_eq/=; auto.
Qed.

Lemma step_timing e s : timing_inv s -> timing_inv (step e s).
Proof.
  intros Hinv. destruct e as [q|m|v| | |dt|id|i o|w|item]; cbn [step].
  - case_bool_decide; [|done]. apply rerender_timing.
    apply (timing_inv_frame s); [..|left|done]; by destruct s as [[]].
  - apply rerender_timing.
    apply (timing_inv_frame s); [..|left|done]; by destruct s as [[]].
  - apply rerender_timing.
    apply (timing_inv_frame s); [..|left|done]; by destruct s as [[]].
  - case_bool_decide; [|done]. by apply handleSearch_start_timing.
  - apply rerender_timing.
    apply (timing_inv_frame s); [..|right|done]; by destruct s as [[]].
  - destruct Hinv as [Hfl Hd]. destruct s as [[]]. split; simpl in *; [|done].
    eapply Forall_impl; [exact Hfl|]. intros t Ht st Hst. specialize (Ht st Hst). lia.
  - destruct (find_timer id s) as [t|]; [|done].
    destruct (t_due t <=? clock s)%Z; [|done].
    apply handleSearch_start_timing.
    apply (timing_inv_frame s); [..|left|done]; by destruct s.
  - destruct (inflight s !! i) as [t|] eqn:Hi; [|done]. destruct (fits t o); [|done].
    destruct Hinv as [Hfl Hd].
    apply resume_timing.
    + rewrite Forall_lookup in Hfl. intros st Hst.
      replace (clock (set_inflight (delete i (inflight s)) s)) with (clock s)
        by (by destruct s).
      by apply (Hfl i t Hi).
    + split; [|by destruct s]. destruct s; simpl in *. by apply Forall_delete.
  - by apply handleQuickLookup_start_timing.
  - apply (timing_inv_frame s); [..|left|done];
      unfold handleToggleSave; destruct s as [[]]; simpl;
      repeat case_match; done.
Qed.

(** X11.  The load time shown under a result is never negative, and no lookup in
    flight carries a start time later than the clock: time only moves
    forward between a dispatch and its completion. *)
Theorem timing_inv_reachable (words : list WordData) (sentences : list SentenceData)
    (url : string) (t0 : Z) (evs : list Event) :
  timing_inv (run evs (mount words sentences url t0)).
Proof.
  assert (forall s, timing_inv s -> timing_inv (run evs s)) as Hrun.
  { induction evs as [|e evs IH]; intros s Hs; [done|].
    cbn [run fold_left]. apply IH. by apply step_timing. }
  apply Hrun. split; [by constructor|done].
Qed.

(** ** Clearing and re-submitting while a lookup is in flight *)

Lemma step_ClearSearch_app s : app (step ClearSearch s) = clearSearch (app s).
Proof.
  cbn [step]. unfold rerender, debounce_effect, debounce_cleanup, clearTimeout, setTimeout.
  destruct s as [[]]. simpl. rewrite ?orb_true_r.
  repeat case_match; simplify_eq/=; done.
Qed.

Lemma step_ClearSearch_frame s :
  latestQueryRef (step ClearSearch s) = latestQueryRef s
  /\ inflight (step ClearSearch s) = inflight s.
Proof.
  cbn [step]. unfold rerender, debounce_effect, debounce_cleanup, clearTimeout, setTimeout.
  destruct s as [[]]. simpl. rewrite ?orb_true_r.
  repeat case_match; simplify_eq/=; done.
Qed.

(** X12.  Clearing the search box, in any reachable state, empties the query,
    the displayed result and the error and cancels the pending debounce
    timer; it does not touch the staleness marker or the lookups in flight,
    so the answer to a lookup dispatched before the clear is still
    published when it arrives. *)
Theorem clearSearch_cancels_pending_only (words : list WordData)
    (sentences : list SentenceData) (url : string) (t0 : Z) (evs : list Event) :
  let s := run evs (mount words sentences url t0) in
  let s' := step ClearSearch s in
  app s' = clearSearch (app s)
  /\ timers s' = []
  /\ latestQueryRef s' = latestQueryRef s
  /\ inflight s' = inflight s
  /\ (forall t r, task_query t = Some (latestQueryRef s) ->
        fits t (Json r) = true ->
        (wordData (app (resume t (Json r) s')), sentenceData (app (resume t (Json r) s')))
        = shown r).
Proof.
  cbv zeta.
  pose proof (run_inv evs _ _ (mount_inv words sentences url t0)) as Hinv.
  set (s := run evs (mount words sentences url t0)) in *.
  set (tc := last_change evs (mount words sentences url t0) t0) in *. clearbody s tc.
  destruct (step_ClearSearch_frame s) as [Hm Hfl].
  split; [apply step_ClearSearch_app|]. split; [|split; [done|split; [done|]]].
  - pose proof (step_inv ClearSearch s tc Hinv) as Hinv'.
    destruct Hinv' as [Hnil|(id & t & _ & _ & _ & _ & _ & _ & Hlen & _)]; [done|].
    rewrite step_ClearSearch_app in Hlen. by destruct s as [[]].
  - intros t r Hq Hfit.
    by destruct (resume_current_success t _ r (step ClearSearch s) Hq Hm Hfit) as [-> _].
Qed.

Lemma clearSearch_cancels_pending_only_witness :
  let cat := mkWordData "cat" "feline" None None in
  let s := step ClearSearch (run [Input "cat"; Submit] (mount [] [] "" 0)) in
  (wordData (app (resume (SearchWordTask "cat" 0 "cat") (Json (IWord cat)) s)),
   sentenceData (app (resume (SearchWordTask "cat" 0 "cat") (Json (IWord cat)) s)))
  = (Some cat, None).
Proof.
  intros cat s.
  exact (proj2 (proj2 (proj2 (proj2
           (clearSearch_cancels_pending_only [] [] "" 0 [Input "cat"; Submit]))))
           (SearchWordTask "cat" 0 "cat") (IWord cat) eq_refl eq_refl).
Defined.

Lemma handleSearch_start_same cl s :
  truthy (trim (c_query cl)) = true ->
  same_as_displayed cl (trim (c_query cl)) = true ->
  handleSearch_start cl s = (set_latestQueryRef (trim (c_query cl)) s, None).
Proof. intros Ht Hd. unfold handleSearch_start. by rewrite Ht, Hd. Qed.

(** X13.  Dispatching the query that is already displayed while the lookup of
    another query is in flight orphans that lookup: nothing is sent, and
    when its response arrives, success or failure, the component state is
    what it was before the dispatch.  The loading flag the orphaned lookup
    raised is therefore never cleared by it. *)
Theorem redispatch_orphans_lookup (cl : Closure) (t : Task) (q : string)
    (o : Response Item) (s : Sys) :
  truthy (trim (c_query cl)) = true ->
  same_as_displayed cl (trim (c_query cl)) = true ->
  task_query t = Some q ->
  q <> trim (c_query cl) ->
  snd (handleSearch_start cl s) = None
  /\ apiCalls (fst (handleSearch_start cl s)) = apiCalls s
  /\ app (resume t o (fst (handleSearch_start cl s))) = app s
  /\ loading (app (resume t o (fst (handleSearch_start cl s)))) = loading (app s).
Proof.
  intros Ht Hd Hq Hne. rewrite handleSearch_start_same by done. cbn [fst snd].
  destruct (resume_stale_app t q o (set_latestQueryRef (trim (c_query cl)) s) Hq)
    as [Ha _]; [by destruct s; simpl; congruence|].
  rewrite Ha. by destruct s.
Qed.

Lemma redispatch_orphans_lookup_witness :
  let cat := mkWordData "cat" "feline" None None in
  let dog := mkWordData "dog" "canine" None None in
  let s := run [Input "cat"; Submit; Resolve 0 (Json (IWord cat));
                Input "dog"; Submit; Input "cat"] (mount [] [] "" 0) in
  loading (app (resume (SearchWordTask "dog" 0 "dog") (Json (IWord dog))
                  (fst (handleSearch_start (closure_of (app s)) s)))) = true.
Proof.
  intros cat dog s.
  assert ("dog" <> "cat") as Hne by discriminate.
  exact (proj2 (proj2 (proj2
           (redispatch_orphans_lookup (closure_of (app s)) (SearchWordTask "dog" 0 "dog")
              "dog" (Json (IWord dog)) s eq_refl eq_refl eq_refl Hne)))).
Defined.

(** ** Global shortcuts *)

Lemma deps_changed_refl a : deps_changed a a = false.
Proof. by apply deps_changed_false. Qed.

(** X14.  A key press acts only with Alt held and only for the keys 1, 2, F, Q
    and C (the letters in either case): each then does exactly what the
    corresponding button does and suppresses the browser's default; every
    other key press leaves the state alone and is not suppressed. *)
Theorem handleGlobalKeyDown_spec (e : KeyEvent) (s : Sys) :
  handleGlobalKeyDown e s
  = if negb (altKey e) then (s, false)
    else if str_eqb (key e) "1" then (step (SetSearchMode word_mode) s, true)
    else if str_eqb (key e) "2" then (step (SetSearchMode sentence_mode) s, true)
    else if str_eqb (toLowerCase (key e)) "f" then (step (SetCurrentView flashcards) s, true)
    else if str_eqb (toLowerCase (key e)) "q" then (step (SetCurrentView search) s, true)
    else if str_eqb (toLowerCase (key e)) "c" then (step ClearSearch s, true)
    else (s, false).
Proof.
  destruct e as [alt k]. unfold handleGlobalKeyDown. cbn [altKey key].
  destruct alt; cbn [negb andb].
  - destruct (str_eqb k "1") eqn:E1.
    { apply str_eqb_true in E1 as ->. by destruct s. }
    destruct (str_eqb k "2") eqn:E2.
    { apply str_eqb_true in E2 as ->. by destruct s. }
    destruct (str_eqb (toLowerCase k) "f") eqn:Ef.
    { apply str_eqb_true in Ef. rewrite Ef. by destruct s. }
    destruct (str_eqb (toLowerCase k) "q") eqn:Eq.
    { apply str_eqb_true in Eq. rewrite Eq. by destruct s. }
    destruct (str_eqb (toLowerCase k) "c") eqn:Ec; [by destruct s|].
    by rewrite rerender_unchanged by apply deps_changed_refl.
  - by rewrite rerender_unchanged by apply deps_changed_refl.
Qed.

(** ** [ClickableText] *)

Lemma str_append_nil_r s : str_append s "" = s.
Proof. induction s as [|c s IH]; simpl; [done|]. by rewrite IH. Qed.

Lemma split_ws_nonempty s : split_ws s <> [].
Proof.
  induction s as [|c s IH]; simpl; [done|].
  destruct (split_ws s) as [|w0 rest]; [done|].
  destruct (is_white_space c); [|done]. by destruct w0, rest.
Qed.

Lemma split_ws_join s :
  fold_right str_append "" (split_ws s) = s.
Proof.
  induction s as [|c s IH]; simpl; [done|].
  pose proof (split_ws_nonempty s) as Hne.
  destruct (split_ws s) as [|w0 rest]; [done|].
  destruct (is_white_space c).
  - destruct w0 as [|c0 w0], rest as [|sep rest']; simpl in *; by rewrite <- IH.
  - simpl in *. by rewrite IH.
Qed.

Lemma shown_text_map parts :
  shown_text (List.map render_part parts) = fold_right str_append "" parts.
Proof.
  induction parts as [|p parts IH]; simpl; [done|]. rewrite <- IH. f_equal.
  unfold render_part. by repeat case_match.
Qed.

(** X15.  Whether clickable or not, [ClickableText] shows its text unchanged:
    the parts it renders, put together, are the text it was given. *)
Theorem ClickableText_shows_text (hasLookup : bool) (text : string) :
  shown_text (ClickableText hasLookup text) = text.
Proof.
  unfold ClickableText. destruct hasLookup.
  - rewrite shown_text_map. apply split_ws_join.
  - simpl. apply str_append_nil_r.
Qed.

Lemma contains_ws_trimStart s : contains_ws s = false -> trimStart s = s.
Proof. destruct s as [|c s]; simpl; [done|]. by intros [-> _]%orb_false_elim. Qed.

Lemma contains_ws_trimEnd s : contains_ws s = false -> trimEnd s = s.
Proof.
  induction s as [|c s IH]; simpl; [done|].
  intros [Hc Hs]%orb_false_elim. rewrite IH by done. rewrite Hc. by destruct s.
Qed.

Lemma contains_ws_trim s : contains_ws s = false -> trim s = s.
Proof.
  intros H. unfold trim. rewrite contains_ws_trimStart by done.
  by apply contains_ws_trimEnd.
Qed.

Lemma strip_punct_ws s : contains_ws s = false -> contains_ws (strip_punct s) = false.
Proof.
  induction s as [|c s IH]; simpl; [done|].
  intros [Hc Hs]%orb_false_elim. destruct (is_punct c); simpl; [by apply IH|].
  by rewrite Hc, IH.
Qed.

Lemma strip_punct_idem s : strip_punct (strip_punct s) = strip_punct s.
Proof.
  induction s as [|c s IH]; simpl; [done|].
  destruct (is_punct c) eqn:E; simpl; [done|]. by rewrite E, IH.
Qed.

(** X16.  A click on a part that [ClickableText] made clickable always leads to
    a lookup: the word it hands over has at least two characters and
    passes [handleQuickLookup]'s own cleaning unchanged, so the guard there
    never rejects it and the memoizer is asked for exactly that word,
    lower-cased. *)
Theorem clickable_part_is_looked_up (text part w : string) (s : Sys) :
  In (Clickable part w) (ClickableText true text) ->
  w = strip_punct part
  /\ trim (strip_punct w) = w
  /\ (2 <= str_length w)%Z
  /\ handleQuickLookup_start w s
     = match wordCache s !! toLowerCase w with
       | Some result =>
           (quick_done (Some result) (on_app (setIsSubLoading true) s), None)
       | None =>
           (generateContent word_mode (toLowerCase w) (on_app (setIsSubLoading true) s),
            Some (QuickTask (toLowerCase w)))
       end.
Proof.
  unfold ClickableText. intros (p & Hp & _)%in_map_iff.
  unfold render_part in Hp.
  destruct (contains_ws p) eqn:Hws; [done|].
  destruct (negb _ || _)%bool eqn:Hguard; [done|].
  injection Hp as -> <-.
  assert (trim (strip_punct (strip_punct part)) = strip_punct part) as Hclean.
  { rewrite strip_punct_idem. by apply contains_ws_trim, strip_punct_ws. }
  apply orb_false_elim in Hguard as [Ht Hl]. apply Z.ltb_ge in Hl.
  split; [done|]. split; [done|]. split; [done|].
  unfold handleQuickLookup_start. rewrite Hclean, Ht.
  rewrite (proj2 (Z.ltb_ge _ _)) by done. cbn [orb].
  unfold lookupWord_start.
  rewrite (contains_ws_trim (strip_punct part)) by by apply strip_punct_ws.
  replace (wordCache (on_app (setIsSubLoading true) s)) with (wordCache s)
    by (by destruct s).
  by destruct (wordCache s !! _).
Qed.

Lemma clickable_part_is_looked_up_witness :
  let s := mount [] [] "" 0 in
  apiCalls (fst (handleQuickLookup_start "Run" s)) = [(word_mode, "run")].
Proof.
  intros s.
  destruct (clickable_part_is_looked_up "to (Run), quickly" "(Run)," "Run" s)
    as (_ & _ & _ & H).
  - right. right. left. reflexivity.
  - exact (eq_trans (f_equal (fun p => apiCalls (fst p)) H) eq_refl).
Defined.

(** ** The practice panel and the sheet sync *)

Lemma card_step_inv e c : card_inv c -> card_inv (card_step e c).
Proof.
  unfold card_inv. intros (He & Hs & Hec & Hsc).
  destruct e as [text| | |k shift|o| |ok]; destruct c; simpl in *.
  - done.
  - done.
  - unfold handleEvaluate_start. simpl.
    destruct (truthy _) eqn:Ht; [|done]. destruct isEvaluating0; [done|]. simpl.
    subst. repeat split; try done. apply Forall_app. split; [done|].
    constructor; [|done]. split; [done|]. by apply truthy_nonempty.
  - unfold handlePracticeKeyDown, handleEvaluate_start. simpl.
    destruct (str_eqb k "Enter" && negb shift)%bool; [|done].
    destruct (truthy _) eqn:Ht; [|done]. destruct isEvaluating0; [done|]. simpl.
    subst. repeat split; try done. apply Forall_app. split; [done|].
    constructor; [|done]. split; [done|]. by apply truthy_nonempty.
  - destruct evalPending0 as [|n]; [done|]. simpl.
    destruct isEvaluating0; [|done]. by simplify_eq.
  - unfold syncToSheets_start. simpl.
    destruct (truthy _) eqn:Ht; [|done]. destruct isSyncing0; [done|]. simpl.
    subst. repeat split; try done. apply Forall_app. split; [done|].
    constructor; [|done]. split; [done|]. by apply truthy_nonempty.
  - destruct syncPending0 as [|n]; [done|]. simpl.
    destruct isSyncing0; [|done]. by simplify_eq.
Qed.

(** X17.  On a word card, whatever the user does and however the calls end: at
    most one evaluation and at most one sync are in flight at any time,
    exactly while the corresponding flag is set; every evaluation requested
    was for the card's word and a sentence that is not blank; and a sync
    goes to the card's URL, never to an empty one. *)
Theorem card_inv_reachable (w url : string) (evs : list CardEvent) :
  card_inv (card_run evs (card_mount w url)).
Proof.
  assert (forall c, card_inv c -> card_inv (card_run evs c)) as Hrun.
  { induction evs as [|e evs IH]; intros c Hc; [done|].
    cbn [card_run fold_left]. apply IH. by apply card_step_inv. }
  apply Hrun. by repeat split.
Qed.

(** ** Persistence *)

(** X18.  What the persistence effects write is what the next start reads: a
    collection that [JSON.parse] recovers from its own [JSON.stringify]
    comes back as it was saved, under its own key only (saving the words
    does not change what is loaded for the sentences, and conversely); the
    sync URL always comes back as it was saved, and is empty when nothing
    was. *)
Theorem persistence_round_trip {A B}
    (JSON_parse : string -> Startup.Completion (Startup.Parsed A))
    (JSON_stringify : list A -> string)
    (JSON_parse' : string -> Startup.Completion (Startup.Parsed B))
    (JSON_stringify' : list B -> string)
    (l : list A) (url : string) (localStorage : gmap string string) :
  JSON_parse (JSON_stringify l) = Startup.Normal (Startup.ParsedArray l) ->
  JSON_stringify l <> "" ->
  Startup.load_savedWords JSON_parse (persist_savedWords JSON_stringify l localStorage)
  = Startup.Normal (Startup.ParsedArray l)
  /\ Startup.load_savedSentences JSON_parse
       (persist_savedSentences JSON_stringify l localStorage)
     = Startup.Normal (Startup.ParsedArray l)
  /\ (forall l',
        Startup.load_savedSentences JSON_parse
          (persist_savedWords JSON_stringify' l' localStorage)
        = Startup.load_savedSentences JSON_parse localStorage
        /\ Startup.load_savedWords JSON_parse
             (persist_savedSentences JSON_stringify' l' localStorage)
           = Startup.load_savedWords JSON_parse localStorage)
  /\ load_sheetsUrl (persist_sheetsUrl url localStorage) = url
  /\ load_sheetsUrl ∅ = "".
Proof.
  intros Hrt Hne.
  unfold Startup.load_savedWords, Startup.load_savedSentences, Startup.load_collection,
    persist_savedWords, persist_savedSentences, persist_sheetsUrl, load_sheetsUrl.
  repeat split.
  - rewrite lookup_insert_eq. destruct (truthy _) eqn:Ht; [by rewrite Hrt|].
    by apply truthy_false in Ht.
  - rewrite lookup_insert_eq. destruct (truthy _) eqn:Ht; [by rewrite Hrt|].
    by apply truthy_false in Ht.
  - by rewrite lookup_insert_ne.
  - by rewrite lookup_insert_ne.
  - rewrite lookup_insert_eq. destruct (truthy url) eqn:Ht; [done|].
    by apply truthy_false in Ht.
Qed.

Lemma persistence_round_trip_witness :
  let walk := mkWordData "walk" "to move slowly" (Some 0) (Some 10) in
  let parse := fun s : string =>
                 if str_eqb s "[walk]" then Startup.Normal (Startup.ParsedArray [walk])
                 else Startup.Throw in
  let stringify := fun _ : list WordData => "[walk]" in
  Startup.load_savedWords parse (persist_savedWords stringify [walk] ∅)
  = Startup.Normal (Startup.ParsedArray [walk]).
Proof.
  intros walk parse stringify.
  refine (proj1 (persistence_round_trip parse stringify parse stringify [walk] "" ∅ _ _)).
  - reflexivity.
  - discriminate.
Defined.
